(** * Skincare analysis API: upload storage and mock analysis

    A shallow embedding of the upload-validation-and-storage pipeline
    ([app/utils/validators.py], [app/services/image_service.py]) and of
    the seeded mock analysis ([app/services/analysis_service.py]),
    together with the parts of the Python runtime they call:
    [pathlib.PurePosixPath], [random.Random.choice] and
    [random.Random.sample], [round] on binary64 floats, [list.sort] on
    strings.

    Conventions.
    - A Python [str] is a [string] whose characters are the code points
      U+0000 to U+00FF; [len] is [String.length].
    - Python [bytes] are [list byte].
    - Python [int] is [Z]; list indices and lengths are [nat].
    - Python [float] is the primitive binary64 [float].
    - A raised exception is a value [Raise e] of [result]; [try]/[except]
      is a match on it.
    - The file store, the clock, the UUID source and the process-wide
      random generator make up the [World] that stateful code threads. *)

From stdpp Require Import gmap strings list sorting.
From Stdlib Require Import ZArith Ascii Strings.Byte.
From Stdlib Require Import PrimFloat FloatOps SpecFloat Uint63.

Set Default Proof Using "Type".
Set Warnings "-inexact-float".

(** ** Exceptions *)

Inductive exn_class :=
| ValidationError        (* app.utils.validators.ValidationError *)
| FileNotFoundError
| OSError
| IndexError
| ValueError
| KeyError
| MagicException         (* what python-magic raises *)
| UnidentifiedImageError (* what PIL.Image.open raises *).

(** An exception object: its class and [str(e)]. *)
Record exn := Exn { exn_class_of : exn_class; exn_str : string }.

Inductive result (A : Type) :=
| Ok (a : A)
| Raise (e : exn).
Arguments Ok {A} a.
Arguments Raise {A} e.

Definition bind {A B} (r : result A) (k : A → result B) : result B :=
  match r with
  | Ok a => k a
  | Raise e => Raise e
  end.

Notation "'let?' x ':=' r 'in' k" := (bind r (fun x => k))
  (at level 10, x pattern, r at level 100, k at level 200, only parsing).

Global Instance exn_class_eq_dec : EqDecision exn_class.
Proof. solve_decision. Defined.

(** [isinstance(e, cls)] for the classes the program catches:
    [FileNotFoundError] is a subclass of [OSError]; every class here is
    a subclass of [Exception]. *)
Definition isinstance (e : exn) (cls : exn_class) : bool :=
  match cls, exn_class_of e with
  | OSError, FileNotFoundError => true
  | c, c' => bool_decide (c = c')
  end.

(** ** Strings *)

Module Str.

Definition len (s : string) : nat := String.length s.

(** [c.lower()] for a code point below 256: A-Z, and the Latin-1
    capitals U+00C0..U+00DE other than the multiplication sign U+00D7. *)
Definition lower_char (c : ascii) : ascii :=
  let n := nat_of_ascii c in
  if ((65 <=? n) && (n <=? 90))%nat then ascii_of_nat (n + 32)
  else if ((192 <=? n) && (n <=? 222) && negb (n =? 215))%nat
       then ascii_of_nat (n + 32)
  else c.

Fixpoint lower (s : string) : string :=
  match s with
  | EmptyString => EmptyString
  | String c s' => String (lower_char c) (lower s')
  end.

(** [s.lstrip(c)] for a one-character argument. *)
Fixpoint lstrip (c : ascii) (s : string) : string :=
  match s with
  | EmptyString => EmptyString
  | String a s' => if Ascii.eqb a c then lstrip c s' else s
  end.

(** [s.rfind(c)] for a one-character needle: the highest index, or -1. *)
Fixpoint rfind (c : ascii) (s : string) : Z :=
  match s with
  | EmptyString => (-1)%Z
  | String a s' =>
      let r := rfind c s' in
      if (0 <=? r)%Z then (r + 1)%Z
      else if Ascii.eqb a c then 0%Z else (-1)%Z
  end.

(** [s[n:]] and [s[:n]] for [0 <= n]. *)
Fixpoint drop (n : nat) (s : string) : string :=
  match n, s with
  | O, _ => s
  | S n', String _ s' => drop n' s'
  | S _, EmptyString => EmptyString
  end.

Fixpoint take (n : nat) (s : string) : string :=
  match n, s with
  | S n', String a s' => String a (take n' s')
  | _, _ => EmptyString
  end.

(** [s.replace(c, "")] for a one-character [c]. *)
Fixpoint remove_char (c : ascii) (s : string) : string :=
  match s with
  | EmptyString => EmptyString
  | String a s' =>
      if Ascii.eqb a c then remove_char c s' else String a (remove_char c s')
  end.

(** [s.split(c)]: always at least one piece. *)
Fixpoint split (c : ascii) (s : string) : list string :=
  match s with
  | EmptyString => [EmptyString]
  | String a s' =>
      if Ascii.eqb a c then EmptyString :: split c s'
      else match split c s' with
           | p :: ps => String a p :: ps
           | [] => [String a EmptyString]
           end
  end.

(** [sep.join(l)]. *)
Fixpoint join (sep : string) (l : list string) : string :=
  match l with
  | [] => EmptyString
  | [x] => x
  | x :: l' => x +:+ sep +:+ join sep l'
  end.

(** [s.startswith(p)]. *)
Fixpoint startswith (p s : string) : bool :=
  match p, s with
  | EmptyString, _ => true
  | String a p', String b s' => Ascii.eqb a b && startswith p' s'
  | String _ _, EmptyString => false
  end.

End Str.

(** ** Floats *)

Module Float.

(** [float(z)] for an [int] below 2^53 in magnitude, where it is exact. *)
Definition of_int (z : Z) : float :=
  if (z <? 0)%Z then (- of_uint63 (Uint63.of_Z (- z)))%float
  else of_uint63 (Uint63.of_Z z).

(** [a / b] on two [int]s (true division). *)
Definition truediv (a b : Z) : float := (of_int a / of_int b)%float.

(** The integer nearest to [m * 2^e], ties to even. *)
Definition nearest_int (m e : Z) : Z :=
  if (0 <=? e)%Z then (m * 2 ^ e)%Z
  else
    let d := (2 ^ (- e))%Z in
    let q := (m / d)%Z in
    let r := (m mod d)%Z in
    if (2 * r <? d)%Z then q
    else if (d <? 2 * r)%Z then (q + 1)%Z
    else if Z.even q then q else (q + 1)%Z.

(** [round(x, 2)]: CPython converts [x] to the decimal string that is
    its exact value correctly rounded (ties to even) to two places and
    reads that string back as the nearest float.  The quotient of the
    integer number of hundredths by 100 is that nearest float as long as
    the number of hundredths is below 2^53; a float with no fractional
    bits is its own rounding. *)
Definition round2 (x : float) : float :=
  match Prim2SF x with
  | S754_finite s m e =>
      if (0 <=? e)%Z then x
      else
        let q := truediv (nearest_int (Z.pos m * 100) e) 100 in
        if s then (- q)%float else q
  | _ => x
  end.

End Float.

(** ** pathlib.PurePosixPath *)

Module Pathlib.

(** A parsed path: the root ([""], ["/"] or ["//"]) and the components
    after it. *)
Record Path := MkPath { root : string; parts : list string }.

Global Instance Path_eq_dec : EqDecision Path.
Proof. solve_decision. Defined.

Definition sep : ascii := "/"%char.

(** [_PosixFlavour.splitroot]: exactly two leading slashes are kept as
    a root of their own, any other number is one slash. *)
Definition splitroot (part : string) : string * string :=
  match part with
  | String a _ =>
      if Ascii.eqb a sep then
        let stripped := Str.lstrip sep part in
        if (Str.len part - Str.len stripped =? 2)%nat
        then ("//", stripped) else ("/", stripped)
      else ("", part)
  | EmptyString => ("", part)
  end.

(** The components of the part after the root: empty components and
    ["."] are dropped, [".."] is kept. *)
Definition components (rel : string) : list string :=
  filter (λ x, x ≠ "" ∧ x ≠ ".") (Str.split sep rel).

(** [PurePosixPath(s)]. *)
Definition parse (s : string) : Path :=
  let '(r, rel) := splitroot s in MkPath r (components rel).

(** [p / key]: an anchored right operand replaces the left one. *)
Definition joinpath (p : Path) (key : string) : Path :=
  let k := parse key in
  if bool_decide (root k = "") then MkPath (root p) (parts p ++ parts k)
  else k.

Infix "//" := joinpath (at level 40, left associativity).

(** [str(p)]. *)
Definition str (p : Path) : string :=
  let s := root p +:+ Str.join "/" (parts p) in
  if bool_decide (s = "") then "." else s.

(** [p.name]: the last component, or [""]. *)
Definition name (p : Path) : string := List.last (parts p) "".

(** [p.suffix]: from the last dot of the name, unless that dot is the
    first or the last character. *)
Definition suffix (p : Path) : string :=
  let n := name p in
  let i := Str.rfind "."%char n in
  if ((0 <? i) && (i <? Z.of_nat (Str.len n) - 1))%Z
  then Str.drop (Z.to_nat i) n else "".

(** [p.stem]: the name without its suffix. *)
Definition stem (p : Path) : string :=
  let n := name p in
  let i := Str.rfind "."%char n in
  if ((0 <? i) && (i <? Z.of_nat (Str.len n) - 1))%Z
  then Str.take (Z.to_nat i) n else n.

(** [os.path.normpath] on components: a [..] cancels the component
    before it; at the root it is dropped, and at the start of a
    relative path it stays. *)
Fixpoint collapse (anchored : bool) (stack todo : list string) : list string :=
  match todo with
  | [] => reverse stack
  | c :: todo' =>
      if bool_decide (c = "..") then
        match stack with
        | [] => if anchored then collapse anchored [] todo'
                else collapse anchored [c] todo'
        | top :: stack' =>
            if bool_decide (top = "..") then collapse anchored (c :: stack) todo'
            else collapse anchored stack' todo'
        end
      else collapse anchored (c :: stack) todo'
  end.

Definition normpath (p : Path) : Path :=
  MkPath (root p) (collapse (negb (bool_decide (root p = ""))) [] (parts p)).

(** A path lies inside a directory when, both normalised, they have the
    same root and the components of the directory come first. *)
Definition inside (dir p : Path) : Prop :=
  root (normpath p) = root (normpath dir)
  ∧ parts (normpath dir) `prefix_of` parts (normpath p).

End Pathlib.
Import Pathlib.


(** ** The world outside the program *)

Inductive syscall := SysOpen | SysWrite | SysUnlink.

Abbreviation store := (gmap string (list byte)).

Record World := MkWorld {
  (** the file store: contents by the path string handed to the system *)
  files : store;
  (** the message of the [OSError] a call on a path raises, if it does *)
  fault : syscall → string → option string;
  (** how many bytes reach the file before a failing write *)
  short_write : nat;
  (** [str(uuid.uuid4())] at each successive call, and the number of
      calls so far *)
  uuid_supply : nat → string;
  uuid_drawn : nat;
  (** [datetime.utcnow().isoformat()] at the next call *)
  utcnow : string;
  (** the seed last given to the process-wide generator of [random] *)
  global_seed : option Z;
  (** the successive contents of the store, oldest first, as another
      process could have seen them since the history was last cleared *)
  seen : list store
}.

Definition set_files (fs : store) (w : World) : World :=
  MkWorld fs (fault w) (short_write w) (uuid_supply w) (uuid_drawn w)
          (utcnow w) (global_seed w) (seen w ++ [fs]).

Definition set_global_seed (z : Z) (w : World) : World :=
  MkWorld (files w) (fault w) (short_write w) (uuid_supply w) (uuid_drawn w)
          (utcnow w) (Some z) (seen w).

Definition set_uuid_drawn (n : nat) (w : World) : World :=
  MkWorld (files w) (fault w) (short_write w) (uuid_supply w) n
          (utcnow w) (global_seed w) (seen w).

(** Stateful code: a result and the world it leaves, also when it raises. *)
Definition io (A : Type) : Type := World → result A * World.

Definition ret {A} (a : A) : io A := λ w, (Ok a, w).
Definition raise {A} (cls : exn_class) (msg : string) : io A :=
  λ w, (Raise (Exn cls msg), w).
Definition reraise {A} (e : exn) : io A := λ w, (Raise e, w).
Definition lift {A} (r : result A) : io A := λ w, (r, w).

Definition io_bind {A B} (m : io A) (k : A → io B) : io B :=
  λ w, match m w with
       | (Ok a, w') => k a w'
       | (Raise e, w') => (Raise e, w')
       end.

Notation "'do' x '<-' m ';' k" := (io_bind m (fun x => k))
  (at level 10, x pattern, m at level 100, k at level 200, only parsing).
Notation "'do_' m ';' k" := (io_bind m (fun _ => k))
  (at level 10, m at level 100, k at level 200, only parsing).

(** [try: body  except ... as e: handler e].  An exception raised by the
    handler itself is not caught. *)
Definition try_except {A} (body : io A) (handler : exn → io A) : io A :=
  λ w, match body w with
       | (Ok a, w') => (Ok a, w')
       | (Raise e, w') => handler e w'
       end.

(** [Path.exists()]. *)
Definition exists_ (p : Path) : io bool :=
  λ w, (Ok (bool_decide (is_Some (files w !! str p))), w).

(** [open(p, 'wb')]: creates the file, or truncates it, at once. *)
Definition open_wb (p : Path) : io unit :=
  λ w, match fault w SysOpen (str p) with
       | Some msg => (Raise (Exn OSError msg), w)
       | None => (Ok (), set_files (<[str p := []]> (files w)) w)
       end.

(** [buffer.write(content)] and the close at the end of the [with]
    block: a failing write leaves a prefix of the content behind. *)
Definition write_close (p : Path) (content : list byte) : io unit :=
  λ w, match fault w SysWrite (str p) with
       | Some msg =>
           (Raise (Exn OSError msg),
            set_files (<[str p := take (short_write w) content]> (files w)) w)
       | None => (Ok (), set_files (<[str p := content]> (files w)) w)
       end.

(** [Path.unlink()]. *)
Definition unlink (p : Path) : io unit :=
  λ w, match files w !! str p with
       | None =>
           (Raise (Exn FileNotFoundError
                     ("[Errno 2] No such file or directory: '"
                      +:+ str p +:+ "'")), w)
       | Some _ =>
           match fault w SysUnlink (str p) with
           | Some msg => (Raise (Exn OSError msg), w)
           | None => (Ok (), set_files (delete (str p) (files w)) w)
           end
       end.

(** [str(uuid.uuid4())]. *)
Definition uuid4 : io string :=
  λ w, (Ok (uuid_supply w (uuid_drawn w)), set_uuid_drawn (S (uuid_drawn w)) w).

(** [datetime.utcnow().isoformat()]. *)
Definition utcnow_isoformat : io string := λ w, (Ok (utcnow w), w).

(** [random.seed(z)] on the process-wide generator. *)
Definition random_seed (z : Z) : io unit :=
  λ w, (Ok (), set_global_seed z w).

(** ** Libraries the program calls *)

Record Libs := MkLibs {
  (** libmagic on the bytes of a file: the MIME type, or the message of
      the exception python-magic raises *)
  magic_mime : list byte → string + string;
  (** Pillow on the bytes of a file: [img.size] as (width, height), or
      the message of the exception [Image.open] raises *)
  pil_size : list byte → string + (Z * Z);
  (** the order in which this process iterates over a [set] of strings *)
  set_iter : gset string → list string;
  (** [str] of a float *)
  float_str : float → string
}.

(** The generator behind [random.Random]: seeding, and [_randbelow]. *)
Class Generator := MkGenerator {
  gen : Type;
  gen_seed : Z → gen;
  randbelow : gen → nat → nat * gen
}.

(** [_randbelow(n)] is below [n]. *)
Definition randbelow_in_range (G : Generator) : Prop :=
  ∀ (g : gen) (n : nat), 0 < n → (randbelow g n).1 < n.

(** [seq[i]] *)
Definition index {A} (l : list A) (i : nat) : result A :=
  match l !! i with
  | Some x => Ok x
  | None => Raise (Exn IndexError "list index out of range")
  end.

Module Random.
Section random.
Context {G : Generator} {A : Type}.

(** [Random.choice(seq)]. *)
Definition choice (g : gen) (seq : list A) : result (A * gen) :=
  if (length seq =? 0)%nat
  then Raise (Exn IndexError "Cannot choose from an empty sequence")
  else
    let '(i, g') := randbelow g (length seq) in
    let? x := index seq i in Ok (x, g').

(** The loop of [Random.sample] over a pool, from iteration [i], with
    [todo] iterations left:
<<
    for i in range(k):
        j = randbelow(n - i)
        result[i] = pool[j]
        pool[j] = pool[n - i - 1]
>> *)
Fixpoint sample_loop (n : nat) (todo i : nat) (g : gen) (pool : list A)
  : result (list A * gen) :=
  match todo with
  | O => Ok ([], g)
  | S todo' =>
      let '(j, g') := randbelow g (n - i) in
      let? x := index pool j in
      let? y := index pool (n - i - 1) in
      let? (rest, g'') := sample_loop n todo' (S i) g' (<[j := y]> pool) in
      Ok (x :: rest, g'')
  end.

(** [Random.sample(population, k)] for a population of at most 21
    elements, where CPython copies the population into a pool and runs
    the loop above (for [k <= 5] the threshold [setsize] is 21; larger
    populations go through a set of chosen indices instead, which is
    not modelled here). *)
Definition sample (g : gen) (population : list A) (k : nat)
  : result (list A * gen) :=
  let n := length population in
  if (n <? k)%nat
  then Raise (Exn ValueError "Sample larger than population or is negative")
  else sample_loop n k 0 g population.

End random.
End Random.

(** ** app/config.py *)

Record Config := MkConfig {
  UPLOAD_DIR : Path;
  MAX_FILE_SIZE : Z
}.

Definition ALLOWED_EXTENSIONS : gset string := {["jpg"; "jpeg"; "png"]}.
Definition ALLOWED_MIME_TYPES : gset string := {["image/jpeg"; "image/png"]}.

(** The configuration when the environment sets nothing. *)
Definition default_config : Config :=
  MkConfig (parse "./uploads") (5 * 1024 * 1024).

Section program.
Context (L : Libs) {G : Generator} (cfg : Config).

(** ** app/utils/validators.py *)

Definition validate_file_extension (filename : string) : result bool :=
  let extension := Str.lstrip "." (Str.lower (suffix (parse filename))) in
  if bool_decide (extension ∉ ALLOWED_EXTENSIONS) then
    Raise (Exn ValidationError
             ("Invalid file type. Allowed types: "
              +:+ Str.join ", " (set_iter L ALLOWED_EXTENSIONS)))
  else Ok true.

Definition validate_file_size (file_size : Z) : result bool :=
  if (MAX_FILE_SIZE cfg <? file_size)%Z then
    let max_mb := Float.truediv (MAX_FILE_SIZE cfg) (1024 * 1024) in
    Raise (Exn ValidationError
             ("File too large. Maximum size: " +:+ float_str L max_mb +:+ "MB"))
  else Ok true.

(** [magic.Magic(mime=True).from_file(str(file_path))]. *)
Definition from_file (file_path : Path) : io string :=
  λ w, match files w !! str file_path with
       | None =>
           (Raise (Exn FileNotFoundError
                     ("[Errno 2] No such file or directory: '"
                      +:+ str file_path +:+ "'")), w)
       | Some b =>
           match magic_mime L b with
           | inl msg => (Raise (Exn MagicException msg), w)
           | inr mime_type => (Ok mime_type, w)
           end
       end.

Definition validate_file_content (file_path : Path) : io (bool * string) :=
  try_except
    (do mime_type <- from_file file_path;
     do_ (if bool_decide (mime_type ∉ ALLOWED_MIME_TYPES)
          then raise ValidationError
                 "Invalid file content. File must be a valid image (JPEG or PNG)"
          else ret ());
     ret (true, mime_type))
    (λ e, raise ValidationError
            ("Error validating file content: " +:+ exn_str e)).

Definition validate_image_id (image_id : string) : result bool :=
  if bool_decide (image_id = "") then
    Raise (Exn ValidationError "Invalid image_id format")
  else if (Str.len image_id <? 8)%nat then
    Raise (Exn ValidationError "Invalid image_id format")
  else Ok true.

(** ** app/services/image_service.py *)

(** What the service reads of a FastAPI [UploadFile]. *)
Record UploadFile := MkUploadFile {
  filename : string;
  content : list byte
}.

(** The dictionary [save_image] returns. *)
Record UploadMeta := MkUploadMeta {
  meta_image_id : string;
  meta_filename : string;
  meta_size : Z;
  meta_uploaded_at : string
}.

(** [str(u).replace('-', '')[:16]]. *)
Definition image_id_of_uuid (u : string) : string :=
  Str.take 16 (Str.remove_char "-" u).

(** The path [save_image] writes a file to, for an identifier. *)
Definition destination (image_id : string) (file : UploadFile) : Path :=
  let extension := Str.lower (suffix (parse (filename file))) in
  let filename := image_id +:+ extension in
  UPLOAD_DIR cfg // filename.

(** [if file_path.exists(): file_path.unlink()]. *)
Definition unlink_if_exists (file_path : Path) : io unit :=
  do there <- exists_ file_path;
  if there then unlink file_path else ret ().

Definition save_image (file : UploadFile) : io UploadMeta :=
  do_ lift (validate_file_extension (filename file));
  let content := content file in
  let file_size := Z.of_nat (length content) in
  do_ lift (validate_file_size file_size);
  do u <- uuid4;
  let image_id := image_id_of_uuid u in
  let file_path := destination image_id file in
  do_ try_except
        (do_ open_wb file_path;
         do_ write_close file_path content;
         do_ validate_file_content file_path;
         ret ())
        (λ e,
           if isinstance e ValidationError then
             do_ unlink_if_exists file_path;
             reraise e
           else
             do_ unlink_if_exists file_path;
             raise ValidationError ("Error saving file: " +:+ exn_str e));
  do now <- utcnow_isoformat;
  ret (MkUploadMeta image_id (filename file) file_size (now +:+ "Z")).

(** The loop of [get_image_path] over the extensions still to probe. *)
Fixpoint probe (image_id : string) (exts : list string) : io Path :=
  match exts with
  | [] =>
      raise FileNotFoundError ("Image with ID '" +:+ image_id +:+ "' not found")
  | ext :: exts' =>
      let file_path := UPLOAD_DIR cfg // (image_id +:+ ext) in
      do there <- exists_ file_path;
      if there then ret file_path else probe image_id exts'
  end.

Definition get_image_path (image_id : string) : io Path :=
  probe image_id [".jpg"; ".jpeg"; ".png"].


(** *** Vocabulary for the storage properties *)

(** The identifier the next call of [save_image] generates. *)
Definition next_image_id (w : World) : string :=
  image_id_of_uuid (uuid_supply w (uuid_drawn w)).

(** No file is stored under an identifier, whatever its extension. *)
Definition unused (image_id : string) (w : World) : Prop :=
  ∀ ext, ext ∈ [".jpg"; ".jpeg"; ".png"] →
         files w !! str (UPLOAD_DIR cfg // (image_id +:+ ext)) = None.

(** Content sniffing rejects some bytes: libmagic fails on them, or
    reports a type outside the allowed ones. *)
Definition sniff_rejects (b : list byte) : Prop :=
  match magic_mime L b with
  | inl _ => True
  | inr mime_type => mime_type ∉ ALLOWED_MIME_TYPES
  end.

Global Instance sniff_rejects_dec (b : list byte) : Decision (sniff_rejects b).
Proof. unfold sniff_rejects. destruct (magic_mime L b); apply _. Defined.

(** The message of the [ValidationError] that rejected bytes end in. *)
Definition rejection_message (b : list byte) : string :=
  "Error validating file content: "
  +:+ match magic_mime L b with
      | inl msg => msg
      | inr _ =>
          "Invalid file content. File must be a valid image (JPEG or PNG)"
      end.

(** No call of [save_image] on a path fails in the system. *)
Definition no_fault_at (p : Path) (w : World) : Prop :=
  fault w SysOpen (str p) = None
  ∧ fault w SysWrite (str p) = None
  ∧ fault w SysUnlink (str p) = None.

(** The world once [save_image] has drawn its identifier, created the
    file and written the content to it. *)
Definition written (file_path : Path) (content : list byte) (w : World)
  : World :=
  let created := <[str file_path := []]> (files w) in
  set_files (<[str file_path := content]> created)
    (set_files created (set_uuid_drawn (S (uuid_drawn w)) w)).

(** The world once the written file has been deleted again. *)
Definition rolled_back (file_path : Path) (content : list byte) (w : World)
  : World :=
  let w2 := written file_path content w in
  set_files (delete (str file_path) (files w2)) w2.

(** What another process can find at a path while some content is
    being stored there: no file, or a file holding a prefix of the
    content (the whole of it included). *)
Definition partial_at (p : Path) (content : list byte) (s : store) : Prop :=
  s !! str p = None ∨ ∃ n, s !! str p = Some (take n content).

(** A computation adds to the history only store states with property
    [P]. *)
Definition shows_only (P : store → Prop) {A} (m : io A) : Prop :=
  ∀ w, ∃ new, seen (m w).2 = seen w ++ new ∧ Forall P new.


(** ** app/services/analysis_service.py *)

Definition SKIN_TYPES : list string :=
  ["Normal"; "Oily"; "Dry"; "Combination"; "Sensitive"].

Definition ISSUES : list string :=
  ["Hyperpigmentation"; "Fine Lines"; "Acne"; "Dark Circles";
   "Redness"; "Uneven Texture"; "Large Pores"; "Dryness"].

Definition RECOMMENDATIONS : gmap string string :=
  list_to_map
    [("Hyperpigmentation", "Use vitamin C serum for hyperpigmentation");
     ("Fine Lines", "Apply retinol for fine lines");
     ("Acne", "Consider salicylic acid for acne treatment");
     ("Dark Circles", "Use caffeine-based eye cream for dark circles");
     ("Redness", "Apply soothing niacinamide for redness");
     ("Uneven Texture", "Use AHA/BHA exfoliant for texture improvement");
     ("Large Pores", "Try niacinamide to minimize pore appearance");
     ("Dryness", "Apply hyaluronic acid serum for hydration")].

(** [RECOMMENDATIONS[issue]]. *)
Definition recommendation (issue : string) : result string :=
  match RECOMMENDATIONS !! issue with
  | Some text => Ok text
  | None => Raise (Exn KeyError ("'" +:+ issue +:+ "'"))
  end.

(** [[f(x) for x in l]] for an [f] that may raise. *)
Fixpoint comprehension {A B} (f : A → result B) (l : list A) : result (list B) :=
  match l with
  | [] => Ok []
  | x :: l' =>
      let? y := f x in
      let? ys := comprehension f l' in
      Ok (y :: ys)
  end.

(** [l.sort()] on strings: ascending by code points. *)
Definition sort (l : list string) : list string := merge_sort String.le l.

(** [Image.open(image_path)] and [img.size]. *)
Definition image_open_size (image_path : Path) : io (Z * Z) :=
  λ w, match files w !! str image_path with
       | None =>
           (Raise (Exn FileNotFoundError
                     ("[Errno 2] No such file or directory: '"
                      +:+ str image_path +:+ "'")), w)
       | Some b =>
           match pil_size L b with
           | inl msg => (Raise (Exn UnidentifiedImageError msg), w)
           | inr size => (Ok size, w)
           end
       end.

(** The dictionary [analyze_image] returns. *)
Record Report := MkReport {
  image_id : string;
  skin_type : string;
  issues : list string;
  confidence : float;
  recommendations : list string;
  analyzed_at : string
}.

(** What the [try] block of [analyze_image] binds. *)
Record Findings := MkFindings {
  f_skin_type : string;
  f_issues : list string;
  f_confidence : float;
  f_recommendations : list string
}.

(** The draws and computations that follow the seed. *)
Definition findings_of_seed (seed : Z) : result Findings :=
  let rng := gen_seed seed in
  let? (skin_type, rng) := Random.choice rng SKIN_TYPES in
  let num_issues := (1 + seed mod 3)%Z in
  let? (issues, rng) := Random.sample rng ISSUES (Z.to_nat num_issues) in
  let issues := sort issues in
  let confidence := (0.75 + Float.truediv (seed mod 20) 100)%float in
  let? recommendations := comprehension recommendation issues in
  Ok (MkFindings skin_type issues confidence recommendations).

Definition analyze_image (image_path : Path) : io Report :=
  do f <- try_except
            (do size <- image_open_size image_path;
             let '(width, height) := size in
             let seed := (width + height)%Z in
             do_ random_seed seed;
             lift (findings_of_seed seed))
            (λ e,
               do text <- lift (recommendation "Hyperpigmentation");
               ret (MkFindings "Combination" ["Hyperpigmentation"]
                               0.85%float [text]));
  let image_id := stem image_path in
  do now <- utcnow_isoformat;
  ret (MkReport image_id (f_skin_type f) (f_issues f)
                (Float.round2 (f_confidence f)) (f_recommendations f)
                (now +:+ "Z")).

(** *** Vocabulary for the analysis properties *)

(** The image at a path opens and has the given size. *)
Definition reads_as (image_path : Path) (w : World) (size : Z * Z) : Prop :=
  ∃ b, files w !! str image_path = Some b ∧ pil_size L b = inr size.

(** The image at a path cannot be opened: there is no file, or Pillow
    fails on its bytes. *)
Definition unreadable (image_path : Path) (w : World) : Prop :=
  ∀ b, files w !! str image_path = Some b → ∃ msg, pil_size L b = inl msg.

(** The fixed report for an image that cannot be read. *)
Definition fallback_report (image_path : Path) (w : World) : Report :=
  MkReport (stem image_path) "Combination" ["Hyperpigmentation"] 0.85%float
           ["Use vitamin C serum for hyperpigmentation"] (utcnow w +:+ "Z").

(** The report built from what the [try] block found. *)
Definition report_of (image_path : Path) (w : World) (f : Findings) : Report :=
  MkReport (stem image_path) (f_skin_type f) (f_issues f)
           (Float.round2 (f_confidence f)) (f_recommendations f)
           (utcnow w +:+ "Z").

End program.

(** ** A concrete platform

    Small stand-ins for the libraries and the generator, on which the
    program can be run. *)

Module Demo.

(** Content sniffing by the leading magic number. *)
Definition magic_mime (b : list byte) : string + string :=
  match b with
  | x89 :: x50 :: x4e :: x47 :: _ => inr "image/png"
  | xff :: xd8 :: xff :: _ => inr "image/jpeg"
  | [] => inr "application/x-empty"
  | _ => inr "text/plain"
  end.

(** Four bytes, most significant first. *)
Definition be32 (a b c d : byte) : Z :=
  Z.of_N (Byte.to_N a) * 16777216 + Z.of_N (Byte.to_N b) * 65536
  + Z.of_N (Byte.to_N c) * 256 + Z.of_N (Byte.to_N d).

(** The size in the header of a PNG: after the 8-byte signature and the
    length and type of the first chunk come the width and the height. *)
Definition pil_size (b : list byte) : string + (Z * Z) :=
  match b with
  | x89 :: x50 :: x4e :: x47 :: _ :: _ :: _ :: _
    :: _ :: _ :: _ :: _ :: _ :: _ :: _ :: _
    :: w3 :: w2 :: w1 :: w0 :: h3 :: h2 :: h1 :: h0 :: _ =>
      inr (be32 w3 w2 w1 w0, be32 h3 h2 h1 h0)
  | _ => inl "cannot identify image file"
  end.

Definition libs : Libs :=
  MkLibs magic_mime pil_size elements
         (λ f, if (f =? 5)%float then "5.0" else "?").

(** A linear congruential generator. *)
Definition lcg : Generator :=
  MkGenerator Z (λ seed, Z.abs seed)
    (λ g n, let g' := ((g * 1103515245 + 12345) mod 2147483648)%Z in
            (Z.to_nat ((g' / 65536) mod Z.of_nat n), g')).

(** The start of a PNG of 800 by 600 pixels, and of one of 600 by 800. *)
Definition png_800x600 : list byte :=
  [x89; x50; x4e; x47; x0d; x0a; x1a; x0a; x00; x00; x00; x0d;
   x49; x48; x44; x52; x00; x00; x03; x20; x00; x00; x02; x58;
   x08; x02; x00; x00; x00].

Definition png_600x800 : list byte :=
  [x89; x50; x4e; x47; x0d; x0a; x1a; x0a; x00; x00; x00; x0d;
   x49; x48; x44; x52; x00; x00; x02; x58; x00; x00; x03; x20;
   x08; x02; x00; x00; x00].

(** The bytes of the text [hello]. *)
Definition text_hello : list byte := [x68; x65; x6c; x6c; x6f].

Definition no_fault : syscall → string → option string := λ _ _, None.

(** A world with an empty store in which no call fails. *)
Definition world0 : World :=
  MkWorld ∅ no_fault 0
          (λ _, "3f2b8c1e-9a4d-4e6f-8b7a-1c2d3e4f5a6b") 0
          "2026-01-05T10:31:00" None [].

(** The same world, where deleting a file is refused. *)
Definition world_no_unlink : World :=
  MkWorld ∅ (λ c _, match c with
                    | SysUnlink => Some "[Errno 13] Permission denied"
                    | _ => None
                    end) 0
          (λ _, "3f2b8c1e-9a4d-4e6f-8b7a-1c2d3e4f5a6b") 0
          "2026-01-05T10:31:00" None [].

Definition with_files (fs : store) (w : World) : World :=
  MkWorld fs (fault w) (short_write w) (uuid_supply w) (uuid_drawn w)
          (utcnow w) (global_seed w) [].

(** A PNG uploaded under an upper-case extension, and a text file
    uploaded as a JPEG. *)
Definition face : UploadFile := MkUploadFile "face.PNG" png_800x600.
Definition notes : UploadFile := MkUploadFile "notes.jpg" text_hello.

(** The identifier the worlds above hand out. *)
Definition id0 : string := "3f2b8c1e9a4d4e6f".

End Demo.

(** ** Identifiers *)

(** A lower-case hexadecimal digit. *)
Definition is_hex (c : ascii) : bool :=
  let n := nat_of_ascii c in
  ((48 <=? n) && (n <=? 57) || (97 <=? n) && (n <=? 102))%nat.

Fixpoint all_chars (P : ascii → bool) (s : string) : bool :=
  match s with
  | EmptyString => true
  | String c s' => P c && all_chars P s'
  end.

(** A string of [n] lower-case hexadecimal digits. *)
Definition hex_digits (n : nat) (s : string) : Prop :=
  Str.len s = n ∧ all_chars is_hex s = true.

(** The text [str] gives a UUID: groups of 8, 4, 4, 4 and 12 lower-case
    hexadecimal digits, with dashes between them. *)
Definition canonical_uuid (u : string) : Prop :=
  ∃ a b c d e,
    u = a +:+ "-" +:+ b +:+ "-" +:+ c +:+ "-" +:+ d +:+ "-" +:+ e
    ∧ hex_digits 8 a ∧ hex_digits 4 b ∧ hex_digits 4 c
    ∧ hex_digits 4 d ∧ hex_digits 12 e.

(** A string without a path separator. *)
Definition no_separator (s : string) : Prop :=
  all_chars (λ c, negb (Ascii.eqb c "/")) s = true.

(** ** Logging and handlers *)

Inductive level := INFO | WARNING | ERROR.

(** A call of [logger.info], [logger.warning] or [logger.error]. *)
Record LogRecord := MkLog { log_level : level; log_message : string }.

Inductive outcome (E A : Type) :=
| Returned (a : A)
| Thrown (e : E).
Arguments Returned {E A} a.
Arguments Thrown {E A} e.

(** Code that logs, and may raise an exception of type [E]. *)
Definition act (E A : Type) : Type :=
  World → outcome E A * World * list LogRecord.

Definition act_ret {E A} (a : A) : act E A := λ w, (Returned a, w, []).
Definition act_throw {E A} (e : E) : act E A := λ w, (Thrown e, w, []).
Definition act_log {E} (lvl : level) (msg : string) : act E unit :=
  λ w, (Returned (), w, [MkLog lvl msg]).

Definition act_bind {E A B} (m : act E A) (k : A → act E B) : act E B :=
  λ w, match m w with
       | (Returned a, w1, l1) =>
           let '(r, w2, l2) := k a w1 in (r, w2, l1 ++ l2)
       | (Thrown e, w1, l1) => (Thrown e, w1, l1)
       end.

(** [try: body  except ... as e: handler e]; the handler may raise
    exceptions of another type. *)
Definition act_try {E E' A} (body : act E A) (handler : E → act E' A)
  : act E' A :=
  λ w, match body w with
       | (Returned a, w1, l1) => (Returned a, w1, l1)
       | (Thrown e, w1, l1) =>
           let '(r, w2, l2) := handler e w1 in (r, w2, l1 ++ l2)
       end.

(** A service call inside a handler. *)
Definition act_io {A} (m : io A) : act exn A :=
  λ w, match m w with
       | (Ok a, w1) => (Returned a, w1, [])
       | (Raise e, w1) => (Thrown e, w1, [])
       end.

Notation "'run' x '<-' m ';' k" := (act_bind m (fun x => k))
  (at level 10, x pattern, m at level 100, k at level 200, only parsing).
Notation "'run_' m ';' k" := (act_bind m (fun _ => k))
  (at level 10, m at level 100, k at level 200, only parsing).

(** [fastapi.HTTPException(status_code, detail)]. *)
Record HTTPException := MkHTTPException {
  status_code : Z;
  detail : string
}.

(** ** app/routes/upload.py *)

Module UploadRoute.
Section route.
Context (L : Libs) (cfg : Config).


End route.
End UploadRoute.

(** ** app/routes/analysis.py *)

Module AnalysisRoute.

(** [AnalysisRequest]. *)
Record AnalysisRequest := MkAnalysisRequest { image_id : string }.

(** What the body of the handler can raise. *)
Inductive raised :=
| Py (e : exn)
| Http (h : HTTPException).

Section route.
Context (L : Libs) {G : Generator} (cfg : Config).

(** A call that raises Python exceptions, inside the handler. *)
Definition py {A} (m : io A) : act raised A :=
  act_try (act_io m) (λ e, act_throw (Py e)).

Definition analyze_image (request : AnalysisRequest)
  : act HTTPException Report :=
  act_try
    (run_ act_log INFO
            ("Received analysis request for image_id: " +:+ image_id request);
     run_ py (lift (validate_image_id (image_id request)));
     run image_path <-
       act_try
         (act_io (get_image_path cfg (image_id request)))
         (λ e,
            if isinstance e FileNotFoundError then
              run_ act_log WARNING ("Image not found: " +:+ image_id request);
              act_throw
                (Http (MkHTTPException
                         404 ("Image with ID '" +:+ image_id request
                              +:+ "' not found")))
            else act_throw (Py e));
     run result <- py (analyze_image L image_path);
     run_ act_log INFO
            ("Successfully analyzed image: " +:+ image_id request);
     act_ret result)
    (λ r,
       match r with
       | Py e =>
           if isinstance e ValidationError then
             run_ act_log WARNING
                    ("Validation error for " +:+ image_id request +:+ ": "
                     +:+ exn_str e);
             act_throw (MkHTTPException 400 (exn_str e))
           else
             run_ act_log ERROR
                    ("Unexpected error analyzing " +:+ image_id request
                     +:+ ": " +:+ exn_str e);
             act_throw (MkHTTPException
                          500 "An error occurred while analyzing the image")
       | Http h => act_throw h
       end).

End route.
End AnalysisRoute.

(** ** app/main.py *)

Module Main.

(** What the middleware reads of a request: the path of the URL and the
    headers, whose names the server hands over in lower case. *)
Record Request := MkRequest {
  url_path : string;
  headers : list (string * string)
}.

(** A response: the status and the fields of its JSON body. *)
Record Response := MkResponse {
  response_status : Z;
  response_content : list (string * string)
}.

(** [request.headers.get(key)]: the value of the first header whose name
    is [key] in lower case. *)
Definition headers_get (h : list (string * string)) (key : string)
  : option string :=
  snd <$> (snd <$> list_find (λ kv, kv.1 = Str.lower key) h).

(** The rest of the application, as the middleware calls it. *)
Definition server (A : Type) : Type := World → A * World * list LogRecord.

Definition verify_api_key (API_KEY : string) (request : Request)
  (call_next : Request → server Response) : server Response :=
  if bool_decide (url_path request
                  ∈ ["/health"; "/docs"; "/redoc"; "/openapi.json"])
  then call_next request
  else
    let api_key := headers_get (headers request) "X-API-Key" in
    if bool_decide (api_key = None ∨ api_key = Some "" ∨ api_key ≠ Some API_KEY)
    then
      λ w, (MkResponse 401 [("detail", "Missing or invalid API key")], w,
            [MkLog WARNING ("Unauthorized request to " +:+ url_path request)])
    else call_next request.

End Main.

(** ** More concrete worlds *)

Module Scenario.

(** The text of the UUID that the worlds of [Demo] hand out. *)
Definition uuid0 : string := "3f2b8c1e-9a4d-4e6f-8b7a-1c2d3e4f5a6b".


(** A PNG uploaded under a name with directories in it. *)
Definition hostile : UploadFile :=
  MkUploadFile "../../etc/cron.d/face.PNG" Demo.png_800x600.

End Scenario.

(** ** Vocabulary for the further properties *)

(** A computation relates every world to the world it leaves by [R]. *)
Definition preserves (R : World → World → Prop) {A} (m : io A) : Prop :=
  ∀ w, R w (m w).2.

(** Two worlds differ at most in the file at one path, in the history
    of the store and in the number of identifiers drawn. *)
Definition same_but_at (q : string) (w w' : World) : Prop :=
  (∀ k, k ≠ q → files w' !! k = files w !! k)
  ∧ fault w' = fault w
  ∧ short_write w' = short_write w
  ∧ uuid_supply w' = uuid_supply w
  ∧ uuid_drawn w ≤ uuid_drawn w'
  ∧ utcnow w' = utcnow w
  ∧ global_seed w' = global_seed w.

(** * Properties *)

(** ** Sampling without replacement *)

Section sample_facts.
Context {G : Generator} {A : Type}.
Implicit Types (pool res : list A) (g : gen).

Lemma index_Ok (l : list A) (i : nat) (x : A) :
  l !! i = Some x → index l i = Ok x.
Proof. unfold index. by intros ->. Qed.

Lemma index_lt (l : list A) (i : nat) :
  i < length l → ∃ x, l !! i = Some x ∧ index l i = Ok x.
Proof.
  intros Hi. destruct (lookup_lt_is_Some_2 l i Hi) as [x Hx].
  exists x. split; [done | by apply index_Ok].
Qed.

(** One iteration of the loop moves the chosen element out of the live
    prefix of the pool and keeps everything else in it. *)
Lemma pool_step pool (m j : nat) (x y : A) :
  j < m → m ≤ length pool →
  pool !! j = Some x → pool !! (m - 1) = Some y →
  take m pool ≡ₚ x :: take (m - 1) (<[j := y]> pool).
Proof.
  intros Hj Hm Hx Hy.
  assert (Htake : take m pool = take (m - 1) pool ++ [y]).
  { replace m with (S (m - 1)) at 1 by lia. by apply take_S_r. }
  destruct (decide (j = m - 1)) as [-> | Hne].
  - assert (x = y) as -> by congruence.
    rewrite list_insert_id by done.
    rewrite Htake. by rewrite Permutation_app_comm.
  - assert (Hj' : j < m - 1) by lia.
    rewrite take_insert_lt by done.
    assert (Hpx : take (m - 1) pool !! j = Some x).
    { by rewrite lookup_take_lt. }
    rewrite Htake.
    apply list_elem_of_split_length in Hpx as (l1 & l2 & Heq & Hlen).
    rewrite Heq. subst j.
    rewrite insert_app_r_alt by lia.
    replace (length l1 - length l1) with 0 by lia. simpl.
    rewrite <- !app_assoc. simpl.
    rewrite <- Permutation_middle. constructor.
    rewrite (Permutation_app_comm l2 [y]). simpl.
    by rewrite <- Permutation_middle.
Qed.

Lemma sample_loop_spec (n todo i : nat) g pool :
  randbelow_in_range G →
  i + todo ≤ n → n ≤ length pool → NoDup (take (n - i) pool) →
  ∃ res g', Random.sample_loop n todo i g pool = Ok (res, g')
            ∧ length res = todo ∧ NoDup res
            ∧ res ⊆ take (n - i) pool.
Proof.
  intros Hrb. revert i g pool.
  induction todo as [| todo IH]; intros i g pool Hk Hn Hnd.
  - exists [], g. simpl. repeat split; [constructor | set_solver].
  - simpl.
    pose proof (Hrb g (n - i) ltac:(lia)) as Hj.
    destruct (randbelow g (n - i)) as [j g1]. simpl in Hj.
    destruct (index_lt pool j ltac:(lia)) as (x & Hx & ->).
    destruct (index_lt pool (n - i - 1) ltac:(lia)) as (y & Hy & ->).
    simpl.
    pose proof (pool_step pool (n - i) j x y Hj ltac:(lia) Hx Hy) as Hperm.
    rewrite Hperm in Hnd. apply NoDup_cons in Hnd as [Hfresh Hnd'].
    replace (n - i - 1) with (n - S i) in * by lia.
    destruct (IH (S i) g1 (<[j := y]> pool)) as (rest & g2 & -> & Hlen & Hnr & Hsub).
    + lia.
    + by rewrite length_insert.
    + done.
    + exists (x :: rest), g2. simpl. repeat split.
      * by rewrite Hlen.
      * apply NoDup_cons. split; [| done]. intros Hin. apply Hfresh. by apply Hsub.
      * intros z Hz. rewrite Hperm.
        apply elem_of_cons in Hz as [-> | Hz]; [left | right; by apply Hsub].
Qed.

(** [sample] returns [k] distinct members of a duplicate-free
    population. *)
Lemma sample_spec g (population : list A) (k : nat) :
  randbelow_in_range G →
  k ≤ length population → NoDup population →
  ∃ res g', Random.sample g population k = Ok (res, g')
            ∧ length res = k ∧ NoDup res ∧ res ⊆ population.
Proof.
  intros Hrb Hk Hnd. unfold Random.sample.
  destruct (Nat.ltb_spec (length population) k) as [? | _]; [lia |].
  destruct (sample_loop_spec (length population) k 0 g population)
    as (res & g' & Heq & Hlen & Hnr & Hsub); try done.
  - by rewrite Nat.sub_0_r, firstn_all.
  - exists res, g'. repeat split; try done.
    by rewrite Nat.sub_0_r, firstn_all in Hsub.
Qed.

(** [choice] returns a member of a non-empty sequence. *)
Lemma choice_spec g (seq : list A) :
  randbelow_in_range G → 0 < length seq →
  ∃ x g', Random.choice g seq = Ok (x, g') ∧ x ∈ seq.
Proof.
  intros Hrb Hlen. unfold Random.choice.
  destruct (Nat.eqb_spec (length seq) 0) as [? | _]; [lia |].
  pose proof (Hrb g (length seq) Hlen) as Hi.
  destruct (randbelow g (length seq)) as [i g']. simpl in Hi.
  destruct (index_lt seq i Hi) as (x & Hx & ->). simpl.
  exists x, g'. split; [done |]. by eapply list_elem_of_lookup_2.
Qed.

End sample_facts.

(** ** Strings and suffixes *)

Lemma lower_char_dot (c : ascii) : Str.lower_char c = "."%char → c = "."%char.
Proof. destruct c as [[] [] [] [] [] [] [] []]; vm_compute; congruence. Qed.

Lemma rfind_ge (c : ascii) (s : string) : (-1 ≤ Str.rfind c s)%Z.
Proof.
  induction s as [| a s IH]; simpl; [lia |].
  destruct (Z.leb_spec 0 (Str.rfind c s)); [lia |].
  destruct (Ascii.eqb a c); lia.
Qed.

(** Where [rfind] points, the needle stands, and it does not occur
    after. *)
Lemma rfind_drop (c : ascii) (s : string) :
  (0 ≤ Str.rfind c s)%Z →
  ∃ r, Str.drop (Z.to_nat (Str.rfind c s)) s = String c r
       ∧ Str.rfind c r = (-1)%Z.
Proof.
  induction s as [| a s IH]; simpl; [lia |].
  pose proof (rfind_ge c s) as Hge.
  destruct (Z.leb_spec 0 (Str.rfind c s)) as [Hpos | Hneg].
  - intros _. destruct (IH Hpos) as (r & Hr & Hnone).
    exists r. split; [| done].
    replace (Z.to_nat (Str.rfind c s + 1)) with (S (Z.to_nat (Str.rfind c s)))
      by lia.
    done.
  - destruct (Ascii.eqb_spec a c) as [-> | Hne]; [| lia].
    intros _. exists s. split; [done | lia].
Qed.

Lemma rfind_none_head (c a : ascii) (s : string) :
  Str.rfind c (String a s) = (-1)%Z → a ≠ c.
Proof.
  simpl. pose proof (rfind_ge c s).
  destruct (Z.leb_spec 0 (Str.rfind c s)); [lia |].
  destruct (Ascii.eqb_spec a c); [lia | done].
Qed.

Lemma startswith_app (p s : string) : Str.startswith p (p +:+ s) = true.
Proof.
  induction p as [| a p IH]; [done |].
  simpl. by rewrite Ascii.eqb_refl.
Qed.

(** A suffix is empty or a dot followed by a piece that does not start
    with a dot. *)
Lemma suffix_shape (p : Path) :
  suffix p = ""
  ∨ ∃ r, suffix p = String "." r ∧ Str.lstrip "." (Str.lower r) = Str.lower r.
Proof.
  unfold suffix.
  destruct ((0 <? _)%Z && _) eqn:Hc; [| by left].
  apply andb_true_iff in Hc as [Hlo _]. apply Z.ltb_lt in Hlo.
  destruct (rfind_drop "." (name p) ltac:(lia)) as (r & -> & Hnone).
  right. exists r. split; [done |].
  destruct r as [| a r]; [done |].
  apply rfind_none_head in Hnone. simpl.
  destruct (Ascii.eqb_spec (Str.lower_char a) ".") as [Heq | _]; [| done].
  by apply lower_char_dot in Heq.
Qed.

Lemma allowed_extension_cases (x : string) :
  x ∈ ALLOWED_EXTENSIONS → x = "jpg" ∨ x = "jpeg" ∨ x = "png".
Proof.
  unfold ALLOWED_EXTENSIONS. rewrite !elem_of_union, !elem_of_singleton. tauto.
Qed.

Section validator_facts.
Context (L : Libs).

(** A file name that passes the extension check has one of the three
    suffixes that [get_image_path] probes, up to case. *)
Lemma validate_file_extension_suffix (filename : string) (b : bool) :
  validate_file_extension L filename = Ok b →
  Str.lower (suffix (parse filename)) ∈ [".jpg"; ".jpeg"; ".png"].
Proof.
  unfold validate_file_extension. case_bool_decide as Hin; [done |].
  intros _. apply allowed_extension_cases in Hin.
  destruct (suffix_shape (parse filename)) as [Heq | (r & Heq & Hr)];
    rewrite Heq in *; simpl in *.
  - destruct Hin as [? | [? | ?]]; congruence.
  - rewrite Hr in Hin.
    destruct Hin as [-> | [-> | ->]].
    + apply list_elem_of_here.
    + apply list_elem_of_further, list_elem_of_here.
    + do 2 apply list_elem_of_further. apply list_elem_of_here.
Qed.

End validator_facts.

(** ** Storage *)

Section storage_facts.
Context (L : Libs) (cfg : Config).

Lemma validate_file_content_stored (p : Path) (b : list byte) (w : World) :
  files w !! str p = Some b →
  validate_file_content L p w =
    match magic_mime L b with
    | inr mime_type =>
        if bool_decide (mime_type ∉ ALLOWED_MIME_TYPES)
        then (Raise (Exn ValidationError (rejection_message L b)), w)
        else (Ok (true, mime_type), w)
    | inl _ => (Raise (Exn ValidationError (rejection_message L b)), w)
    end.
Proof.
  intros Hb. unfold validate_file_content, try_except, io_bind, from_file, rejection_message.
  rewrite Hb. destruct (magic_mime L b) as [msg | mime_type]; [done |].
  by case_bool_decide.
Qed.

Lemma probe_absent (image_id : string) (exts : list string) (w : World) :
  (∀ ext, ext ∈ exts → files w !! str (UPLOAD_DIR cfg // (image_id +:+ ext)) = None) →
  probe cfg image_id exts w =
    (Raise (Exn FileNotFoundError ("Image with ID '" +:+ image_id +:+ "' not found")), w).
Proof.
  induction exts as [| ext exts IH]; intros Hnone; [done |].
  simpl. unfold io_bind, exists_.
  rewrite (Hnone ext) by apply list_elem_of_here.
  rewrite bool_decide_eq_false_2 by (by intros [? ?]).
  apply IH. intros e He. apply Hnone. by apply list_elem_of_further.
Qed.

Lemma probe_present (image_id : string) (exts : list string) (w : World) (ext : string) :
  ext ∈ exts → is_Some (files w !! str (UPLOAD_DIR cfg // (image_id +:+ ext))) →
  ∃ ext', ext' ∈ exts
    ∧ is_Some (files w !! str (UPLOAD_DIR cfg // (image_id +:+ ext')))
    ∧ probe cfg image_id exts w = (Ok (UPLOAD_DIR cfg // (image_id +:+ ext')), w).
Proof.
  induction exts as [| e exts IH]; intros Hin Hsome; [by apply elem_of_nil in Hin |].
  simpl. unfold io_bind, exists_.
  destruct (decide (is_Some (files w !! str (UPLOAD_DIR cfg // (image_id +:+ e))))) as [Hy | Hn].
  - rewrite bool_decide_eq_true_2 by done.
    exists e. split; [apply list_elem_of_here | done].
  - rewrite bool_decide_eq_false_2 by done.
    apply elem_of_cons in Hin as [-> | Hin]; [done |].
    destruct (IH Hin Hsome) as (ext' & Hin' & Hs' & Heq).
    exists ext'. split; [by apply list_elem_of_further | done].
Qed.



Lemma unlink_if_exists_stored (p : Path) (b : list byte) (w : World) :
  files w !! str p = Some b →
  unlink_if_exists p w =
    match fault w SysUnlink (str p) with
    | Some msg => (Raise (Exn OSError msg), w)
    | None => (Ok (), set_files (delete (str p) (files w)) w)
    end.
Proof.
  intros Hb. unfold unlink_if_exists, io_bind, exists_, unlink.
  rewrite Hb. rewrite bool_decide_eq_true_2 by done. by rewrite Hb.
Qed.

(** What [save_image] does once the checks on the name and the size have
    passed and the file could be created and written. *)
Lemma save_image_written (w : World) (file : UploadFile) :
  let image_id := next_image_id w in
  let file_path := destination cfg image_id file in
  let w2 := written file_path (content file) w in
  validate_file_extension L (filename file) = Ok true →
  validate_file_size L cfg (Z.of_nat (length (content file))) = Ok true →
  fault w SysOpen (str file_path) = None →
  fault w SysWrite (str file_path) = None →
  save_image L cfg file w =
    if decide (sniff_rejects L (content file)) then
      match fault w SysUnlink (str file_path) with
      | Some msg => (Raise (Exn OSError msg), w2)
      | None =>
          (Raise (Exn ValidationError (rejection_message L (content file))),
           rolled_back file_path (content file) w)
      end
    else
      (Ok (MkUploadMeta image_id (filename file)
             (Z.of_nat (length (content file))) (utcnow w +:+ "Z")), w2).
Proof.
  intros image_id file_path w2 Hext Hsize Hopen Hwrite.
  unfold save_image, io_bind, lift. rewrite Hext, Hsize.
  unfold uuid4. fold (next_image_id w). fold image_id. fold file_path.
  unfold try_except, open_wb. simpl. rewrite Hopen.
  unfold write_close. simpl. rewrite Hwrite.
  fold (written file_path (content file) w). fold w2.
  assert (Hstored : files w2 !! str file_path = Some (content file)).
  { unfold w2, written. simpl. apply lookup_insert_eq. }
  rewrite (validate_file_content_stored file_path (content file)) by done.
  assert (Hfault : fault w2 = fault w) by done.
  assert (Hnow : utcnow w2 = utcnow w) by done.
  destruct (decide (sniff_rejects L (content file))) as [Hrej | Hacc];
    unfold sniff_rejects in *;
    destruct (magic_mime L (content file)) as [msg | mime_type];
    try case_bool_decide; try done; simpl;
    rewrite ?(unlink_if_exists_stored file_path (content file)) by done;
    rewrite ?Hfault, ?Hnow;
    try (by destruct (fault w SysUnlink (str file_path))).
Qed.

Lemma validate_file_extension_true (filename : string) (b : bool) :
  validate_file_extension L filename = Ok b → b = true.
Proof. unfold validate_file_extension. case_bool_decide; congruence. Qed.

Lemma validate_file_size_true (n : Z) (b : bool) :
  validate_file_size L cfg n = Ok b → b = true.
Proof. unfold validate_file_size. destruct (_ <? _)%Z; congruence. Qed.

(** [save_image] returns only when both checks pass and the file could
    be created and written. *)
Lemma save_image_Ok_inv (w w' : World) (file : UploadFile) (meta : UploadMeta) :
  let file_path := destination cfg (next_image_id w) file in
  save_image L cfg file w = (Ok meta, w') →
  validate_file_extension L (filename file) = Ok true
  ∧ validate_file_size L cfg (Z.of_nat (length (content file))) = Ok true
  ∧ fault w SysOpen (str file_path) = None
  ∧ fault w SysWrite (str file_path) = None.
Proof.
  intros file_path. unfold save_image, io_bind, lift.
  destruct (validate_file_extension L (filename file)) as [b1 |] eqn:Hext;
    [| discriminate].
  apply validate_file_extension_true in Hext as Hb1. subst b1.
  destruct (validate_file_size L cfg _) as [b2 |] eqn:Hsize; [| discriminate].
  apply validate_file_size_true in Hsize as Hb2. subst b2.
  unfold uuid4. fold (next_image_id w). fold file_path.
  unfold try_except, open_wb. simpl.
  destruct (fault w SysOpen (str file_path)) as [msg |] eqn:Hopen.
  { simpl. destruct (unlink_if_exists file_path _) as [[[] | e] w1]; discriminate. }
  unfold write_close. simpl.
  destruct (fault w SysWrite (str file_path)) as [msg |] eqn:Hwrite.
  { simpl. destruct (unlink_if_exists file_path _) as [[[] | e] w1]; discriminate. }
  done.
Qed.


(** C1. An upload that passes the checks on its name and size, is
    written without an I/O failure, and whose bytes content sniffing
    rejects, ends in the [ValidationError] with the written file deleted
    again: the store is as it was before the call, nothing is at the
    destination, the deletion is the last change to the store, and
    [get_image_path] on the identifier the upload had drawn raises
    [FileNotFoundError].  The identifier is taken to be unused, as a
    fresh UUID is. *)
Theorem rejected_upload_is_rolled_back (w : World) (file : UploadFile) :
  let image_id := next_image_id w in
  let file_path := destination cfg image_id file in
  validate_file_extension L (filename file) = Ok true →
  validate_file_size L cfg (Z.of_nat (length (content file))) = Ok true →
  no_fault_at file_path w →
  sniff_rejects L (content file) →
  unused cfg image_id w →
  ∃ w',
    save_image L cfg file w
      = (Raise (Exn ValidationError (rejection_message L (content file))), w')
    ∧ files w' = files w
    ∧ files w' !! str file_path = None
    ∧ last (seen w') = Some (files w')
    ∧ get_image_path cfg image_id w'
      = (Raise (Exn FileNotFoundError
                  ("Image with ID '" +:+ image_id +:+ "' not found")), w').
Proof.
  intros image_id file_path Hext Hsize (Hopen & Hwrite & Hunlink) Hrej Hfresh.
  exists (rolled_back file_path (content file) w).
  rewrite save_image_written by done. fold image_id file_path.
  rewrite decide_True by done. rewrite Hunlink.
  assert (Hgone : files (rolled_back file_path (content file) w) = files w).
  { simpl. rewrite !delete_insert_eq. apply delete_id.
    apply Hfresh. by eapply validate_file_extension_suffix. }
  split; [done |]. split; [done |].
  split; [apply lookup_delete_eq |].
  split; [apply last_snoc |].
  apply probe_absent. intros ext Hin. rewrite Hgone. by apply Hfresh.
Qed.

(** C3. When [save_image] accepts an upload under an unused identifier,
    [get_image_path] on the identifier it returned succeeds, and the
    bytes stored at the path it yields are the uploaded content. *)
Theorem save_then_get_roundtrip
  (w w' : World) (file : UploadFile) (meta : UploadMeta) :
  unused cfg (next_image_id w) w →
  save_image L cfg file w = (Ok meta, w') →
  ∃ p, get_image_path cfg (meta_image_id meta) w' = (Ok p, w')
       ∧ files w' !! str p = Some (content file).
Proof.
  intros Hfresh Hsave.
  destruct (save_image_Ok_inv _ _ _ _ Hsave) as (Hext & Hsize & Hopen & Hwrite).
  rewrite save_image_written in Hsave by done.
  destruct (decide (sniff_rejects L (content file))) as [Hrej | Hacc].
  { destruct (fault w SysUnlink _); discriminate. }
  injection Hsave as <- <-. simpl.
  set (image_id := next_image_id w) in *.
  set (file_path := destination cfg image_id file).
  set (w2 := written file_path (content file) w).
  pose proof (validate_file_extension_suffix L _ _ Hext) as Hin.
  destruct (probe_present image_id [".jpg"; ".jpeg"; ".png"] w2 _ Hin)
    as (ext & Hext' & Hsome & Hprobe).
  { unfold w2, written. simpl. fold (destination cfg image_id file).
    fold file_path. by rewrite lookup_insert_eq. }
  exists (UPLOAD_DIR cfg // (image_id +:+ ext)). split; [done |].
  unfold w2, written in Hsome |- *. simpl in *.
  destruct (decide (str file_path = str (UPLOAD_DIR cfg // (image_id +:+ ext))))
    as [<- | Hne].
  - apply lookup_insert_eq.
  - rewrite !lookup_insert_ne in Hsome by done.
    rewrite (Hfresh ext Hext') in Hsome. by destruct Hsome.
Qed.

(** C4, as the code has it. When the bytes are rejected and the delete
    of the written file fails, the [OSError] of the delete is what
    [save_image] raises, in place of the [ValidationError], and the
    rejected file stays at the destination; the [ValidationError]
    reaches the caller when the delete succeeds. *)
Theorem failed_delete_replaces_validation_error
  (w : World) (file : UploadFile) :
  let file_path := destination cfg (next_image_id w) file in
  validate_file_extension L (filename file) = Ok true →
  validate_file_size L cfg (Z.of_nat (length (content file))) = Ok true →
  fault w SysOpen (str file_path) = None →
  fault w SysWrite (str file_path) = None →
  sniff_rejects L (content file) →
  match fault w SysUnlink (str file_path) with
  | Some msg =>
      ∃ w', save_image L cfg file w = (Raise (Exn OSError msg), w')
            ∧ files w' !! str file_path = Some (content file)
  | None =>
      ∃ w', save_image L cfg file w
            = (Raise (Exn ValidationError
                        (rejection_message L (content file))), w')
            ∧ files w' !! str file_path = None
  end.
Proof.
  intros file_path Hext Hsize Hopen Hwrite Hrej.
  rewrite save_image_written by done. fold file_path.
  rewrite decide_True by done.
  destruct (fault w SysUnlink (str file_path)) as [msg |].
  - eexists. split; [done |]. apply lookup_insert_eq.
  - eexists. split; [done |]. apply lookup_delete_eq.
Qed.


(** *** What a call lets other processes see *)

Section shows_only.
Context (P : store → Prop).

Lemma shows_only_silent {A} (m : io A) :
  (∀ w, seen (m w).2 = seen w) → shows_only P m.
Proof. intros H w. exists []. by rewrite H, app_nil_r. Qed.

Lemma shows_only_bind {A B} (m : io A) (k : A → io B) :
  shows_only P m → (∀ a, shows_only P (k a)) → shows_only P (io_bind m k).
Proof.
  intros Hm Hk w. unfold io_bind.
  destruct (Hm w) as (new1 & Heq1 & HP1).
  destruct (m w) as [[a | e] w1]; simpl in *.
  - destruct (Hk a w1) as (new2 & Heq2 & HP2).
    exists (new1 ++ new2). rewrite Heq2, Heq1, app_assoc.
    split; [done | by apply Forall_app].
  - by exists new1.
Qed.

Lemma shows_only_try {A} (body : io A) (handler : exn → io A) :
  shows_only P body → (∀ e, shows_only P (handler e)) →
  shows_only P (try_except body handler).
Proof.
  intros Hm Hk w. unfold try_except.
  destruct (Hm w) as (new1 & Heq1 & HP1).
  destruct (body w) as [[a | e] w1]; simpl in *.
  - by exists new1.
  - destruct (Hk e w1) as (new2 & Heq2 & HP2).
    exists (new1 ++ new2). rewrite Heq2, Heq1, app_assoc.
    split; [done | by apply Forall_app].
Qed.

Lemma shows_only_if {A} (b : bool) (m1 m2 : io A) :
  shows_only P m1 → shows_only P m2 → shows_only P (if b then m1 else m2).
Proof. by destruct b. Qed.

End shows_only.

Lemma shows_only_open_wb (p : Path) (c : list byte) :
  shows_only (partial_at p c) (open_wb p).
Proof.
  intros w. unfold open_wb.
  destruct (fault w SysOpen (str p)); simpl.
  - exists []. by rewrite app_nil_r.
  - eexists [_]. split; [done |]. apply Forall_singleton.
    right. exists 0. by rewrite lookup_insert_eq.
Qed.

Lemma shows_only_write_close (p : Path) (c : list byte) :
  shows_only (partial_at p c) (write_close p c).
Proof.
  intros w. unfold write_close.
  destruct (fault w SysWrite (str p)); simpl;
    (eexists [_]; split; [done |]; apply Forall_singleton; right).
  - exists (short_write w). by rewrite lookup_insert_eq.
  - exists (length c). by rewrite lookup_insert_eq, firstn_all.
Qed.

Lemma shows_only_unlink_if_exists (p : Path) (c : list byte) :
  shows_only (partial_at p c) (unlink_if_exists p).
Proof.
  intros w. unfold unlink_if_exists, io_bind, exists_, unlink.
  destruct (files w !! str p) as [b |] eqn:Hb.
  - rewrite bool_decide_eq_true_2 by done. rewrite Hb.
    destruct (fault w SysUnlink (str p)); simpl.
    + exists []. by rewrite app_nil_r.
    + eexists [_]. split; [done |]. apply Forall_singleton.
      left. apply lookup_delete_eq.
  - rewrite bool_decide_eq_false_2 by (by intros [? ?]).
    exists []. by rewrite app_nil_r.
Qed.

Lemma validate_file_content_world (p : Path) (w : World) :
  (validate_file_content L p w).2 = w.
Proof.
  unfold validate_file_content, try_except, io_bind, from_file.
  destruct (files w !! str p); [| done].
  destruct (magic_mime L _); [done |]. by case_bool_decide.
Qed.

(** Every state of the store that a call of [save_image] lets another
    process see has, at the destination, no file or a prefix of the
    content. *)
Lemma save_image_shows (w : World) (file : UploadFile) :
  let file_path := destination cfg (next_image_id w) file in
  ∃ new, seen (save_image L cfg file w).2 = seen w ++ new
         ∧ Forall (partial_at file_path (content file)) new.
Proof.
  intros file_path. unfold save_image.
  unfold io_bind at 1, lift at 1.
  destruct (validate_file_extension L (filename file));
    [| exists []; by rewrite app_nil_r].
  unfold io_bind at 1, lift at 1.
  destruct (validate_file_size L cfg _); [| exists []; by rewrite app_nil_r].
  unfold io_bind at 1, uuid4 at 1.
  fold (next_image_id w). fold file_path.
  match goal with |- context [seen (?m ?w1).2] =>
    change (seen w) with (seen w1);
    generalize w1; change (shows_only (partial_at file_path (content file)) m)
  end.
  apply shows_only_bind.
  - apply shows_only_try.
    + apply shows_only_bind; [apply shows_only_open_wb | intros _].
      apply shows_only_bind; [apply shows_only_write_close | intros _].
      apply shows_only_bind; [| intros _; by apply shows_only_silent].
      apply shows_only_silent. intros w1.
      by rewrite validate_file_content_world.
    + intros e. apply shows_only_if;
        (apply shows_only_bind; [apply shows_only_unlink_if_exists |]);
        intros; by apply shows_only_silent.
  - intros _. apply shows_only_bind; intros; by apply shows_only_silent.
Qed.

(** C8, as the code has it. [save_image] writes in place, at the
    destination path itself: what another process can find there during
    a call is no file or a prefix of the content, and a call that
    succeeds has shown the file first empty, as [open] creates it, and
    then with the whole content. *)
Theorem upload_is_written_in_place (w : World) (file : UploadFile) :
  let file_path := destination cfg (next_image_id w) file in
  let created := <[str file_path := []]> (files w) in
  (∃ new, seen (save_image L cfg file w).2 = seen w ++ new
          ∧ Forall (partial_at file_path (content file)) new)
  ∧ (∀ meta w', save_image L cfg file w = (Ok meta, w') →
       seen w' = seen w ++ [created; <[str file_path := content file]> created]).
Proof.
  intros file_path created. split; [apply save_image_shows |].
  intros meta w' Hsave.
  destruct (save_image_Ok_inv _ _ _ _ Hsave) as (Hext & Hsize & Hopen & Hwrite).
  rewrite save_image_written in Hsave by done.
  destruct (decide (sniff_rejects L (content file))).
  { destruct (fault w SysUnlink _); discriminate. }
  injection Hsave as _ <-. simpl. by rewrite <- app_assoc.
Qed.

(** C9. Whenever [validate_file_content] raises, it raises a
    [ValidationError] whose message starts with
    ["Error validating file content: "]; for a file whose sniffed type
    is not allowed, that prefix is followed by the inner message, which
    therefore never reaches the caller on its own. *)
Theorem content_errors_are_rewrapped
  (p : Path) (w w' : World) (e : exn) :
  validate_file_content L p w = (Raise e, w') →
  exn_class_of e = ValidationError
  ∧ Str.startswith "Error validating file content: " (exn_str e) = true
  ∧ exn_str e
    ≠ "Invalid file content. File must be a valid image (JPEG or PNG)"
  ∧ (∀ b mime_type,
       files w !! str p = Some b → magic_mime L b = inr mime_type →
       mime_type ∉ ALLOWED_MIME_TYPES →
       exn_str e = "Error validating file content: Invalid file content. File must be a valid image (JPEG or PNG)").
Proof.
  unfold validate_file_content, try_except, io_bind, from_file.
  intros Hraise.
  assert (Hshape : ∃ msg, e = Exn ValidationError
                                ("Error validating file content: " +:+ msg)
            ∧ ∀ b mime_type,
                files w !! str p = Some b → magic_mime L b = inr mime_type →
                mime_type ∉ ALLOWED_MIME_TYPES →
                msg = "Invalid file content. File must be a valid image (JPEG or PNG)").
  { destruct (files w !! str p) as [b |] eqn:Hb.
    - destruct (magic_mime L b) as [msg | mime_type] eqn:Hm.
      + injection Hraise as <- _. eexists. split; [done |]. congruence.
      + case_bool_decide as Hin; [| discriminate].
        injection Hraise as <- _. eexists. split; [done | done].
    - injection Hraise as <- _. eexists. split; [done |]. congruence. }
  destruct Hshape as (msg & -> & Hmsg).
  split; [done |]. split; [apply startswith_app |]. split.
  - intros Heq. apply (f_equal (Str.startswith "E")) in Heq.
    vm_compute in Heq. discriminate.
  - intros b mime_type Hb Hm Hin. by rewrite (Hmsg b mime_type).
Qed.

End storage_facts.

(** ** Identifiers and paths *)

Lemma startswith_sep (a : ascii) (s : string) :
  Str.startswith "/" (String a s) = Ascii.eqb a sep.
Proof.
  change (Str.startswith "/" (String a s)) with (Ascii.eqb "/" a && true).
  by rewrite andb_true_r, Ascii.eqb_sym.
Qed.

Lemma splitroot_root (s : string) :
  (splitroot s).1 = "" ↔ Str.startswith "/" s = false.
Proof.
  destruct s as [| a s]; [done |].
  rewrite startswith_sep. unfold splitroot.
  destruct (Ascii.eqb a sep); [| done].
  destruct (_ =? 2)%nat; split; discriminate.
Qed.

Lemma splitroot_relative (s : string) :
  Str.startswith "/" s = false → splitroot s = ("", s).
Proof.
  destruct s as [| a s]; [done |].
  rewrite startswith_sep. unfold splitroot. by intros ->.
Qed.

(** [dir / key] keeps [dir] exactly when [key] does not begin with a
    separator. *)
Lemma joinpath_cases (dir : Path) (key : string) :
  dir // key =
    if Str.startswith "/" key then parse key
    else MkPath (root dir) (parts dir ++ components key).
Proof.
  unfold joinpath, parse.
  destruct (Str.startswith "/" key) eqn:Hkey.
  - pose proof (splitroot_root key) as Hroot.
    destruct (splitroot key) as [r rel]. simpl in *.
    rewrite bool_decide_eq_false_2; [done |].
    intros Hr. apply Hroot in Hr. congruence.
  - by rewrite splitroot_relative.
Qed.


Section path_facts.
Context (cfg : Config).

(** [get_image_path] returns the first of the three joined paths at
    which a file exists. *)
Lemma probe_list_find (image_id : string) (exts : list string) (w : World) :
  probe cfg image_id exts w =
    match list_find
            (λ ext, is_Some (files w !! str (UPLOAD_DIR cfg // (image_id +:+ ext))))
            exts with
    | Some (_, ext) => (Ok (UPLOAD_DIR cfg // (image_id +:+ ext)), w)
    | None =>
        (Raise (Exn FileNotFoundError
                  ("Image with ID '" +:+ image_id +:+ "' not found")), w)
    end.
Proof.
  induction exts as [| ext exts IH]; [done |].
  simpl. unfold io_bind, exists_.
  case_decide as Hext.
  - by rewrite bool_decide_eq_true_2 by done.
  - rewrite bool_decide_eq_false_2 by done. rewrite IH.
    by destruct (list_find _ exts) as [[i e] |].
Qed.

End path_facts.


(** ** Analysis *)

Lemma ISSUES_NoDup : NoDup ISSUES.
Proof. by apply (bool_decide_unpack _). Qed.

Lemma recommendation_ISSUES (issue : string) :
  issue ∈ ISSUES → ∃ text, RECOMMENDATIONS !! issue = Some text
                           ∧ recommendation issue = Ok text.
Proof.
  unfold ISSUES. intros Hin.
  repeat (apply elem_of_cons in Hin as [-> | Hin]; [by eexists |]).
  by apply elem_of_nil in Hin.
Qed.

Lemma comprehension_recommendation (l : list string) :
  l ⊆ ISSUES →
  ∃ texts, comprehension recommendation l = Ok texts
           ∧ Forall2 (λ issue text, RECOMMENDATIONS !! issue = Some text) l texts.
Proof.
  induction l as [| issue l IH]; intros Hsub.
  - exists []. by split.
  - destruct (recommendation_ISSUES issue) as (text & Hlook & Heq).
    { apply Hsub. apply list_elem_of_here. }
    destruct IH as (texts & Hl & Hall).
    { intros x Hx. apply Hsub. by apply list_elem_of_further. }
    exists (text :: texts). simpl. rewrite Heq, Hl. simpl.
    split; [done | by constructor].
Qed.

(** The number of issues is 1, 2 or 3. *)
Lemma num_issues_range (seed : Z) :
  1 ≤ Z.to_nat (1 + seed mod 3) ≤ 3.
Proof. pose proof (Z.mod_pos_bound seed 3 ltac:(lia)). lia. Qed.

(** The confidence before and after rounding, for each residue of the
    seed: rounding gives the float nearest to the number of hundredths
    over 100, between 0.75 and 0.94. *)
Lemma confidence_table (k : Z) :
  (0 ≤ k < 20)%Z →
  let c := Float.round2 (0.75 + Float.truediv k 100)%float in
  c = Float.truediv (75 + k) 100
  ∧ (0.75 <=? c)%float = true
  ∧ (c <=? 0.94)%float = true.
Proof.
  intros Hk.
  assert (Hin : k ∈ (Z.of_nat <$> seq 0 20)).
  { apply list_elem_of_fmap. exists (Z.to_nat k).
    split; [lia | apply elem_of_seq; lia]. }
  simpl in Hin.
  repeat (apply elem_of_cons in Hin as [-> | Hin]; [by vm_compute |]).
  by apply elem_of_nil in Hin.
Qed.

Section analysis_facts.
Context (L : Libs) {G : Generator}.

(** With a generator that keeps [_randbelow] in range, no draw fails. *)
Lemma findings_of_seed_spec (seed : Z) :
  randbelow_in_range G →
  ∃ skin g1 picked g2 texts,
    Random.choice (gen_seed seed) SKIN_TYPES = Ok (skin, g1)
    ∧ Random.sample g1 ISSUES (Z.to_nat (1 + seed mod 3)) = Ok (picked, g2)
    ∧ skin ∈ SKIN_TYPES
    ∧ length picked = Z.to_nat (1 + seed mod 3)
    ∧ NoDup picked
    ∧ picked ⊆ ISSUES
    ∧ Forall2 (λ issue text, RECOMMENDATIONS !! issue = Some text)
              (sort picked) texts
    ∧ findings_of_seed seed
      = Ok (MkFindings skin (sort picked)
              (0.75 + Float.truediv (seed mod 20) 100)%float texts).
Proof.
  intros Hrb. unfold findings_of_seed.
  destruct (choice_spec (gen_seed seed) SKIN_TYPES Hrb) as (skin & g1 & Hc & Hskin);
    [simpl; lia |].
  pose proof (num_issues_range seed) as Hnum.
  destruct (sample_spec g1 ISSUES (Z.to_nat (1 + seed mod 3)) Hrb)
    as (picked & g2 & Hs & Hlen & Hnd & Hsub);
    [simpl; lia | apply ISSUES_NoDup |].
  destruct (comprehension_recommendation (sort picked)) as (texts & Hrec & Hall).
  { intros x Hx. apply Hsub. unfold sort in Hx.
    by rewrite merge_sort_Permutation in Hx. }
  exists skin, g1, picked, g2, texts.
  rewrite Hc. simpl. rewrite Hs. simpl. rewrite Hrec. simpl.
  done.
Qed.

(** What [analyze_image] returns for an image that opens. *)
Lemma analyze_image_readable
  (image_path : Path) (w : World) (width height : Z) :
  reads_as L image_path w (width, height) →
  analyze_image L image_path w =
    (Ok (match findings_of_seed (width + height) with
         | Ok f => report_of image_path w f
         | Raise _ => fallback_report image_path w
         end),
     set_global_seed (width + height) w).
Proof.
  intros (b & Hb & Hsize).
  unfold analyze_image, io_bind, try_except, image_open_size.
  rewrite Hb, Hsize. simpl. unfold lift.
  by destruct (findings_of_seed (width + height)).
Qed.

(** What [analyze_image] returns for an image that does not open. *)
Lemma analyze_image_unreadable (image_path : Path) (w : World) :
  unreadable L image_path w →
  analyze_image L image_path w = (Ok (fallback_report image_path w), w).
Proof.
  intros Hun.
  unfold analyze_image, io_bind, try_except, image_open_size.
  destruct (files w !! str image_path) as [b |] eqn:Hb; [| done].
  destruct (Hun b Hb) as [msg ->]. done.
Qed.

End analysis_facts.

Section analysis_properties.
Context (L : Libs) {G : Generator}.

(** C2. Two images whose widths and heights have the same sum get
    reports with the same skin type, issues, confidence and
    recommendations, whatever the paths, the stores and the clocks.
    With a generator that keeps [_randbelow] in range, the skin type is
    the first draw from the generator seeded with that sum, and the
    issues are the sample drawn next from the same generator, sorted. *)
Theorem equal_seed_equal_report
  (p1 p2 : Path) (w1 w2 : World) (width1 height1 width2 height2 : Z) :
  reads_as L p1 w1 (width1, height1) →
  reads_as L p2 w2 (width2, height2) →
  (width1 + height1 = width2 + height2)%Z →
  ∃ r1 r2 w1' w2',
    analyze_image L p1 w1 = (Ok r1, w1')
    ∧ analyze_image L p2 w2 = (Ok r2, w2')
    ∧ skin_type r1 = skin_type r2
    ∧ issues r1 = issues r2
    ∧ confidence r1 = confidence r2
    ∧ recommendations r1 = recommendations r2
    ∧ (randbelow_in_range G →
       ∃ skin g1 picked g2,
         Random.choice (gen_seed (width1 + height1)) SKIN_TYPES = Ok (skin, g1)
         ∧ Random.sample g1 ISSUES (Z.to_nat (1 + (width1 + height1) mod 3))
           = Ok (picked, g2)
         ∧ skin_type r1 = skin
         ∧ issues r1 = sort picked).
Proof.
  intros H1 H2 Hsum.
  rewrite (analyze_image_readable L p1 w1 _ _ H1).
  rewrite (analyze_image_readable L p2 w2 _ _ H2).
  rewrite <- Hsum.
  do 4 eexists. split; [done |]. split; [done |].
  destruct (findings_of_seed (width1 + height1)) as [f | e] eqn:Hf.
  - repeat (split; [done |]).
    intros Hrb.
    destruct (findings_of_seed_spec (width1 + height1) Hrb)
      as (skin & g1 & picked & g2 & texts & Hc & Hs & _ & _ & _ & _ & _ & Heq).
    rewrite Hf in Heq. injection Heq as ->.
    by exists skin, g1, picked, g2.
  - repeat (split; [done |]).
    intros Hrb.
    destruct (findings_of_seed_spec (width1 + height1) Hrb)
      as (? & ? & ? & ? & ? & _ & _ & _ & _ & _ & _ & _ & Heq).
    congruence.
Qed.

(** C5. For an image that opens, with [seed = width + height] and a
    generator that keeps [_randbelow] in range, the issues of the report
    are [1 + seed mod 3] in number (1, 2 or 3), distinct, among the
    eight of [ISSUES], in ascending order of their labels; and the
    recommendations are, issue by issue and in the same order, the
    entries of [RECOMMENDATIONS]. *)
Theorem issues_are_a_sorted_sample
  (p : Path) (w : World) (width height : Z) :
  randbelow_in_range G →
  reads_as L p w (width, height) →
  ∃ r w',
    analyze_image L p w = (Ok r, w')
    ∧ length (issues r) = Z.to_nat (1 + (width + height) mod 3)
    ∧ 1 ≤ length (issues r) ≤ 3
    ∧ NoDup (issues r)
    ∧ issues r ⊆ ISSUES
    ∧ length ISSUES = 8
    ∧ StronglySorted String.le (issues r)
    ∧ Forall2 (λ issue text, RECOMMENDATIONS !! issue = Some text)
              (issues r) (recommendations r).
Proof.
  intros Hrb Hread.
  rewrite (analyze_image_readable L p w _ _ Hread).
  destruct (findings_of_seed_spec (width + height) Hrb)
    as (skin & g1 & picked & g2 & texts & _ & _ & _ & Hlen & Hnd & Hsub & Hall & ->).
  do 2 eexists. split; [done |]. simpl.
  assert (Hperm : sort picked ≡ₚ picked) by apply merge_sort_Permutation.
  pose proof (num_issues_range (width + height)) as Hnum.
  assert (Hlen' : length (sort picked) = Z.to_nat (1 + (width + height) mod 3)).
  { by rewrite Hperm. }
  split; [done |]. split; [lia |].
  split; [by rewrite Hperm |].
  split; [intros x Hx; apply Hsub; by rewrite <- Hperm |].
  split; [done |].
  split; [| done].
  apply StronglySorted_merge_sort; apply _.
Qed.

(** C6. For an image that opens, with [seed = width + height] and a
    generator that keeps [_randbelow] in range, the confidence of the
    report is [0.75 + (seed mod 20) / 100] rounded to two places; that
    is the float nearest to [(75 + seed mod 20) / 100], it lies between
    0.75 and 0.94, and for the seed 1400 it is 0.75. *)
Theorem confidence_formula
  (p : Path) (w : World) (width height : Z) :
  randbelow_in_range G →
  reads_as L p w (width, height) →
  ∃ r w',
    analyze_image L p w = (Ok r, w')
    ∧ confidence r
      = Float.round2 (0.75 + Float.truediv ((width + height) mod 20) 100)%float
    ∧ confidence r = Float.truediv (75 + (width + height) mod 20) 100
    ∧ (0.75 <=? confidence r)%float = true
    ∧ (confidence r <=? 0.94)%float = true
    ∧ ((width + height)%Z = 1400%Z → confidence r = 0.75%float).
Proof.
  intros Hrb Hread.
  rewrite (analyze_image_readable L p w _ _ Hread).
  destruct (findings_of_seed_spec (width + height) Hrb)
    as (skin & g1 & picked & g2 & texts & _ & _ & _ & _ & _ & _ & _ & ->).
  do 2 eexists. split; [done |]. simpl.
  pose proof (Z.mod_pos_bound (width + height) 20 ltac:(lia)) as Hk.
  destruct (confidence_table _ Hk) as (Hnear & Hlo & Hhi).
  repeat (split; [done |]).
  intros ->. by vm_compute.
Qed.

(** C7. [analyze_image] returns a report for every path, in every
    world; for a path at which there is no file, or a file that Pillow
    cannot open, it is the fixed report: skin type Combination, the one
    issue Hyperpigmentation, confidence 0.85, and the recommendation for
    that issue. *)
Theorem analysis_never_raises (p : Path) (w : World) :
  (∃ r w', analyze_image L p w = (Ok r, w'))
  ∧ (unreadable L p w →
     analyze_image L p w
     = (Ok (MkReport (stem p) "Combination" ["Hyperpigmentation"] 0.85%float
              ["Use vitamin C serum for hyperpigmentation"]
              (utcnow w +:+ "Z")), w)).
Proof.
  split.
  - unfold analyze_image, io_bind at 1, try_except.
    destruct (io_bind (image_open_size L p) _ w) as [[f | e] w1];
      simpl; eauto.
  - apply analyze_image_unreadable.
Qed.

End analysis_properties.

(** ** The program on concrete inputs *)

Lemma lcg_in_range : randbelow_in_range Demo.lcg.
Proof.
  intros g n Hn. simpl.
  pose proof (Z.mod_pos_bound
                (((g * 1103515245 + 12345) mod 2147483648) / 65536)
                (Z.of_nat n) ltac:(lia)).
  lia.
Qed.

Lemma world0_unused (image_id : string) : unused default_config image_id Demo.world0.
Proof. intros ext _. apply lookup_empty. Qed.

Example suffix_examples :
  (λ s, (suffix (parse s), stem (parse s)))
    <$> ["a.JPG"; "b.tar.gz"; ".jpg"; "x.jpg."; "dir/x.JpEg"; "noext"]
  = [(".JPG", "a"); (".gz", "b.tar"); ("", ".jpg"); ("", "x.jpg.");
     (".JpEg", "x"); ("", "noext")].
Proof. reflexivity. Qed.

Example joinpath_examples :
  (λ s, str (UPLOAD_DIR default_config // s))
    <$> ["abc.png"; "a//b/./c.jpg"; "../x.jpg"; "/x/y.jpg"; "//x/y.jpg";
         "///x/y.jpg"]
  = ["uploads/abc.png"; "uploads/a/b/c.jpg"; "uploads/../x.jpg"; "/x/y.jpg";
     "//x/y.jpg"; "/x/y.jpg"].
Proof. reflexivity. Qed.

Example validate_file_extension_examples :
  (λ s, match validate_file_extension Demo.libs s with
        | Ok b => b
        | Raise _ => false
        end)
    <$> ["a.jpg"; "a.JPEG"; "a.Png"; "a.gif"; "a"; ".png"; "a.png.txt"]
  = [true; true; true; false; false; false; false].
Proof. by vm_compute. Qed.

Example validate_file_size_examples :
  validate_file_size Demo.libs default_config 5242880 = Ok true
  ∧ validate_file_size Demo.libs default_config 5242881
    = Raise (Exn ValidationError "File too large. Maximum size: 5.0MB").
Proof. by vm_compute. Qed.

Example validate_image_id_examples :
  validate_image_id "" = Raise (Exn ValidationError "Invalid image_id format")
  ∧ validate_image_id "1234567"
    = Raise (Exn ValidationError "Invalid image_id format")
  ∧ validate_image_id "12345678" = Ok true.
Proof. by vm_compute. Qed.

Example round2_examples :
  Float.round2 <$> [0.125; 2.675; 0.8200000000000001; 0.85; 3; -0.126]%float
  = [0.12; 2.67; 0.82; 0.85; 3; -0.13]%float.
Proof. by vm_compute. Qed.

Example get_image_path_missing :
  (get_image_path default_config "nonexistent00" Demo.world0).1
  = Raise (Exn FileNotFoundError "Image with ID 'nonexistent00' not found").
Proof. by vm_compute. Qed.

Example analyze_seed_1400 :
  (analyze_image Demo.libs (G := Demo.lcg)
     (UPLOAD_DIR default_config // "3f2b8c1e9a4d4e6f.png")
     (Demo.with_files {["uploads/3f2b8c1e9a4d4e6f.png" := Demo.png_800x600]}
        Demo.world0)).1
  = Ok (MkReport "3f2b8c1e9a4d4e6f" "Dry"
          ["Acne"; "Hyperpigmentation"; "Redness"] 0.75%float
          ["Consider salicylic acid for acne treatment";
           "Use vitamin C serum for hyperpigmentation";
           "Apply soothing niacinamide for redness"]
          "2026-01-05T10:31:00Z").
Proof. by vm_compute. Qed.

Example analyze_unreadable_examples :
  let fixed := λ now,
    Ok (MkReport "notes" "Combination" ["Hyperpigmentation"] 0.85%float
          ["Use vitamin C serum for hyperpigmentation"] now) in
  (analyze_image Demo.libs (G := Demo.lcg) (parse "uploads/notes.jpg")
     Demo.world0).1
  = fixed "2026-01-05T10:31:00Z"
  ∧ (analyze_image Demo.libs (G := Demo.lcg) (parse "uploads/notes.jpg")
       (Demo.with_files {["uploads/notes.jpg" := Demo.text_hello]}
          Demo.world0)).1
    = fixed "2026-01-05T10:31:00Z".
Proof. split; vm_compute; reflexivity. Qed.

(** ** The properties on concrete inputs *)

(** C1 on the text file uploaded as [notes.jpg] into the empty store. *)
Lemma rejected_upload_is_rolled_back_witness :
  ∃ w',
    save_image Demo.libs default_config Demo.notes Demo.world0
      = (Raise (Exn ValidationError
                  (rejection_message Demo.libs (content Demo.notes))), w')
    ∧ files w' = files Demo.world0
    ∧ files w' !! str (destination default_config Demo.id0 Demo.notes) = None
    ∧ last (seen w') = Some (files w')
    ∧ get_image_path default_config Demo.id0 w'
      = (Raise (Exn FileNotFoundError
                  ("Image with ID '" +:+ Demo.id0 +:+ "' not found")), w').
Proof.
  apply (rejected_upload_is_rolled_back
           Demo.libs default_config Demo.world0 Demo.notes).
  - by vm_compute.
  - by vm_compute.
  - by repeat split.
  - by apply (bool_decide_unpack _).
  - apply world0_unused.
Defined.

(** C3 on the PNG uploaded as [face.PNG] into the empty store. *)
Lemma save_then_get_roundtrip_witness :
  ∃ p,
    get_image_path default_config Demo.id0
      (save_image Demo.libs default_config Demo.face Demo.world0).2
    = (Ok p, (save_image Demo.libs default_config Demo.face Demo.world0).2)
    ∧ files (save_image Demo.libs default_config Demo.face Demo.world0).2
        !! str p
      = Some Demo.png_800x600.
Proof.
  apply (save_then_get_roundtrip
           Demo.libs default_config Demo.world0 _ Demo.face
           (MkUploadMeta Demo.id0 "face.PNG" 29 "2026-01-05T10:31:00Z")).
  - apply world0_unused.
  - by vm_compute.
Defined.

(** C4 fails where deleting is refused: the text file uploaded as
    [notes.jpg] is rejected by content sniffing, the delete raises, and
    the caller gets the [OSError] of the delete, not the
    [ValidationError]; the rejected file is still there. *)
Lemma failed_delete_masks_validation_error :
  validate_file_extension Demo.libs (filename Demo.notes) = Ok true
  ∧ sniff_rejects Demo.libs (content Demo.notes)
  ∧ fault Demo.world_no_unlink SysUnlink
      (str (destination default_config Demo.id0 Demo.notes))
    = Some "[Errno 13] Permission denied"
  ∧ (save_image Demo.libs default_config Demo.notes Demo.world_no_unlink).1
    = Raise (Exn OSError "[Errno 13] Permission denied")
  ∧ isinstance (Exn OSError "[Errno 13] Permission denied") ValidationError
    = false
  ∧ files (save_image Demo.libs default_config Demo.notes
             Demo.world_no_unlink).2
      !! "uploads/3f2b8c1e9a4d4e6f.jpg"
    = Some Demo.text_hello.
Proof.
  split; [by vm_compute |].
  split; [by apply (bool_decide_unpack _) |].
  by vm_compute.
Qed.

(** The amended C4 in the same world. *)
Lemma failed_delete_replaces_validation_error_witness :
  ∃ w',
    save_image Demo.libs default_config Demo.notes Demo.world_no_unlink
      = (Raise (Exn OSError "[Errno 13] Permission denied"), w')
    ∧ files w' !! str (destination default_config Demo.id0 Demo.notes)
      = Some (content Demo.notes).
Proof.
  apply (failed_delete_replaces_validation_error
           Demo.libs default_config Demo.world_no_unlink Demo.notes).
  - by vm_compute.
  - by vm_compute.
  - done.
  - done.
  - by apply (bool_decide_unpack _).
Defined.

(** C8 fails on the PNG uploaded as [face.PNG]: the upload succeeds, and
    the first state of the store it shows has, at the destination, a
    file that is there and is not the content. *)
Lemma empty_file_is_visible_during_upload :
  (save_image Demo.libs default_config Demo.face Demo.world0).1
  = Ok (MkUploadMeta Demo.id0 "face.PNG" 29 "2026-01-05T10:31:00Z")
  ∧ ∃ s,
      seen (save_image Demo.libs default_config Demo.face Demo.world0).2 !! 0
      = Some s
      ∧ s !! "uploads/3f2b8c1e9a4d4e6f.png" = Some []
      ∧ s !! "uploads/3f2b8c1e9a4d4e6f.png" ≠ None
      ∧ s !! "uploads/3f2b8c1e9a4d4e6f.png" ≠ Some (content Demo.face).
Proof.
  split; [by vm_compute |].
  eexists. split; [reflexivity |].
  split; [by vm_compute |].
  split; by vm_compute.
Qed.

(** C9 on a text file stored under a [.jpg] name. *)
Lemma content_errors_are_rewrapped_witness :
  let w := Demo.with_files {["uploads/notes.jpg" := Demo.text_hello]}
             Demo.world0 in
  let e := Exn ValidationError
             "Error validating file content: Invalid file content. File must be a valid image (JPEG or PNG)" in
  exn_class_of e = ValidationError
  ∧ Str.startswith "Error validating file content: " (exn_str e) = true
  ∧ exn_str e
    ≠ "Invalid file content. File must be a valid image (JPEG or PNG)"
  ∧ (∀ b mime_type,
       files w !! str (parse "uploads/notes.jpg") = Some b →
       magic_mime Demo.libs b = inr mime_type →
       mime_type ∉ ALLOWED_MIME_TYPES →
       exn_str e = "Error validating file content: Invalid file content. File must be a valid image (JPEG or PNG)").
Proof.
  apply (content_errors_are_rewrapped
           Demo.libs (parse "uploads/notes.jpg")
           (Demo.with_files {["uploads/notes.jpg" := Demo.text_hello]}
              Demo.world0)
           (Demo.with_files {["uploads/notes.jpg" := Demo.text_hello]}
              Demo.world0)).
  by vm_compute.
Defined.


(** C2 on two PNGs, one of 800 by 600 and one of 600 by 800. *)
Lemma equal_seed_equal_report_witness :
  let p1 := parse "uploads/a.png" in
  let p2 := parse "uploads/b.png" in
  let w1 := Demo.with_files {["uploads/a.png" := Demo.png_800x600]}
              Demo.world0 in
  let w2 := Demo.with_files {["uploads/b.png" := Demo.png_600x800]}
              Demo.world_no_unlink in
  ∃ r1 r2 w1' w2',
    analyze_image Demo.libs (G := Demo.lcg) p1 w1 = (Ok r1, w1')
    ∧ analyze_image Demo.libs (G := Demo.lcg) p2 w2 = (Ok r2, w2')
    ∧ skin_type r1 = skin_type r2
    ∧ issues r1 = issues r2
    ∧ confidence r1 = confidence r2
    ∧ recommendations r1 = recommendations r2
    ∧ (randbelow_in_range Demo.lcg →
       ∃ skin g1 picked g2,
         Random.choice (G := Demo.lcg) (gen_seed (800 + 600)) SKIN_TYPES
         = Ok (skin, g1)
         ∧ Random.sample g1 ISSUES (Z.to_nat (1 + (800 + 600) mod 3))
           = Ok (picked, g2)
         ∧ skin_type r1 = skin
         ∧ issues r1 = sort picked).
Proof.
  apply (equal_seed_equal_report Demo.libs (G := Demo.lcg)
           (parse "uploads/a.png") (parse "uploads/b.png") _ _ 800 600 600 800).
  - exists Demo.png_800x600. by vm_compute.
  - exists Demo.png_600x800. by vm_compute.
  - done.
Defined.

(** C5 on a PNG of 800 by 600. *)
Lemma issues_are_a_sorted_sample_witness :
  ∃ r w',
    analyze_image Demo.libs (G := Demo.lcg) (parse "uploads/a.png")
      (Demo.with_files {["uploads/a.png" := Demo.png_800x600]} Demo.world0)
    = (Ok r, w')
    ∧ length (issues r) = Z.to_nat (1 + (800 + 600) mod 3)
    ∧ 1 ≤ length (issues r) ≤ 3
    ∧ NoDup (issues r)
    ∧ issues r ⊆ ISSUES
    ∧ length ISSUES = 8
    ∧ StronglySorted String.le (issues r)
    ∧ Forall2 (λ issue text, RECOMMENDATIONS !! issue = Some text)
              (issues r) (recommendations r).
Proof.
  apply (issues_are_a_sorted_sample Demo.libs (G := Demo.lcg)
           (parse "uploads/a.png") _ 800 600 lcg_in_range).
  exists Demo.png_800x600. by vm_compute.
Defined.

(** C6 on a PNG of 800 by 600. *)
Lemma confidence_formula_witness :
  ∃ r w',
    analyze_image Demo.libs (G := Demo.lcg) (parse "uploads/a.png")
      (Demo.with_files {["uploads/a.png" := Demo.png_800x600]} Demo.world0)
    = (Ok r, w')
    ∧ confidence r
      = Float.round2 (0.75 + Float.truediv ((800 + 600) mod 20) 100)%float
    ∧ confidence r = Float.truediv (75 + (800 + 600) mod 20) 100
    ∧ (0.75 <=? confidence r)%float = true
    ∧ (confidence r <=? 0.94)%float = true
    ∧ ((800 + 600)%Z = 1400%Z → confidence r = 0.75%float).
Proof.
  apply (confidence_formula Demo.libs (G := Demo.lcg)
           (parse "uploads/a.png") _ 800 600 lcg_in_range).
  exists Demo.png_800x600. by vm_compute.
Defined.

(** * Further properties *)

(** ** More on strings *)

Lemma app_cons (a : ascii) (s t : string) :
  String a s +:+ t = String a (s +:+ t).
Proof. reflexivity. Qed.

Lemma app_nil_l_str (t : string) : "" +:+ t = t.
Proof. reflexivity. Qed.

Lemma len_app (s t : string) : Str.len (s +:+ t) = Str.len s + Str.len t.
Proof. induction s as [| a s IH]; [done |]. rewrite app_cons. simpl. by rewrite IH. Qed.

Lemma take_len_app (s t : string) : Str.take (Str.len s) (s +:+ t) = s.
Proof. induction s as [| a s IH]; [by destruct t |]. rewrite app_cons. simpl. by rewrite IH. Qed.

Lemma all_chars_app (P : ascii → bool) (s t : string) :
  all_chars P (s +:+ t) = all_chars P s && all_chars P t.
Proof.
  induction s as [| a s IH]; [done |].
  rewrite app_cons. simpl. by rewrite IH, andb_assoc.
Qed.

Lemma all_chars_impl (P Q : ascii → bool) (s : string) :
  (∀ c, P c = true → Q c = true) →
  all_chars P s = true → all_chars Q s = true.
Proof.
  intros HPQ. induction s as [| a s IH]; [done |]. simpl.
  intros [Ha Hs]%andb_true_iff. by rewrite (HPQ a Ha), IH.
Qed.

Lemma remove_char_app (c : ascii) (s t : string) :
  Str.remove_char c (s +:+ t) = Str.remove_char c s +:+ Str.remove_char c t.
Proof.
  induction s as [| a s IH]; [done |].
  rewrite app_cons. simpl. destruct (Ascii.eqb a c); [done |].
  by rewrite app_cons, IH.
Qed.

Lemma remove_char_absent (c : ascii) (s : string) :
  all_chars (λ a, negb (Ascii.eqb a c)) s = true → Str.remove_char c s = s.
Proof.
  induction s as [| a s IH]; [done |]. simpl.
  intros [Ha Hs]%andb_true_iff. apply negb_true_iff in Ha. rewrite Ha.
  by rewrite IH.
Qed.

Lemma is_hex_not_dash (c : ascii) :
  is_hex c = true → negb (Ascii.eqb c "-") = true.
Proof. destruct c as [[] [] [] [] [] [] [] []]; by vm_compute. Qed.

Lemma is_hex_not_sep (c : ascii) :
  is_hex c = true → negb (Ascii.eqb c "/") = true.
Proof. destruct c as [[] [] [] [] [] [] [] []]; by vm_compute. Qed.

Lemma split_no_separator (s : string) :
  no_separator s → Str.split sep s = [s].
Proof.
  unfold no_separator, sep. induction s as [| a s IH]; [done |].
  cbn [all_chars Str.split].
  intros [Ha Hs]%andb_true_iff. apply negb_true_iff in Ha.
  rewrite Ha. by rewrite (IH Hs).
Qed.

Lemma startswith_no_separator (s : string) :
  no_separator s → Str.startswith "/" s = false.
Proof.
  destruct s as [| a s]; [done |]. unfold no_separator. cbn [all_chars].
  intros [Ha _]%andb_true_iff. apply negb_true_iff in Ha.
  rewrite startswith_sep. exact Ha.
Qed.

(** The last dot of [s + "." + r], for [r] without a dot, is the one
    between them. *)
Lemma rfind_app (c : ascii) (s r : string) :
  Str.rfind c r = (-1)%Z →
  Str.rfind c (s +:+ String c r) = Z.of_nat (Str.len s).
Proof.
  intros Hr. induction s as [| a s IH].
  - rewrite app_nil_l_str. simpl. rewrite Hr. simpl. by rewrite Ascii.eqb_refl.
  - rewrite app_cons. simpl. rewrite IH.
    destruct (Z.leb_spec 0 (Z.of_nat (Str.len s))); lia.
Qed.

(** ** The extension check *)

Lemma lower_char_eqb_sep (a : ascii) :
  Ascii.eqb (Str.lower_char a) "/" = Ascii.eqb a "/".
Proof. destruct a as [[] [] [] [] [] [] [] []]; reflexivity. Qed.

Lemma lower_char_eqb_dot (a : ascii) :
  Ascii.eqb (Str.lower_char a) "." = Ascii.eqb a ".".
Proof. destruct a as [[] [] [] [] [] [] [] []]; reflexivity. Qed.

Lemma lower_char_idem (a : ascii) :
  Str.lower_char (Str.lower_char a) = Str.lower_char a.
Proof. destruct a as [[] [] [] [] [] [] [] []]; reflexivity. Qed.

Lemma lower_idem (s : string) : Str.lower (Str.lower s) = Str.lower s.
Proof. induction s as [| a s IH]; [done |]. simpl. by rewrite lower_char_idem, IH. Qed.

Lemma lower_len (s : string) : Str.len (Str.lower s) = Str.len s.
Proof. induction s as [| a s IH]; [done |]. simpl. by rewrite IH. Qed.

Lemma lower_eq_nil (s : string) : Str.lower s = "" ↔ s = "".
Proof. by destruct s. Qed.

Lemma lower_eq_dot (s : string) : Str.lower s = "." ↔ s = ".".
Proof.
  destruct s as [| a [| b s]]; try done. simpl. split.
  - intros [= Ha]. f_equal. by apply lower_char_dot.
  - by intros [= ->].
Qed.

Lemma lstrip_lower_sep (s : string) :
  Str.lstrip "/" (Str.lower s) = Str.lower (Str.lstrip "/" s).
Proof.
  induction s as [| a s IH]; [done |].
  cbn [Str.lower Str.lstrip]. rewrite lower_char_eqb_sep.
  by destruct (Ascii.eqb a "/").
Qed.

Lemma split_lower (s : string) :
  Str.split sep (Str.lower s) = Str.lower <$> Str.split sep s.
Proof.
  unfold sep. induction s as [| a s IH]; [done |].
  cbn [Str.lower Str.split]. rewrite lower_char_eqb_sep, IH.
  destruct (Ascii.eqb a "/"); [done |].
  by destruct (Str.split "/" s).
Qed.

Lemma components_lower (s : string) :
  components (Str.lower s) = Str.lower <$> components s.
Proof.
  unfold components. rewrite split_lower.
  induction (Str.split sep s) as [| x l IH]; [done |].
  rewrite fmap_cons, !filter_cons, IH.
  repeat case_decide; try done; exfalso;
    rewrite lower_eq_nil, lower_eq_dot in *; tauto.
Qed.

Lemma splitroot_lower (s : string) :
  splitroot (Str.lower s) = ((splitroot s).1, Str.lower (splitroot s).2).
Proof.
  destruct s as [| a s]; [done |].
  unfold splitroot. cbn [Str.lower]. unfold sep.
  rewrite lower_char_eqb_sep.
  destruct (Ascii.eqb a "/") eqn:Ha; [| done].
  change (String (Str.lower_char a) (Str.lower s)) with (Str.lower (String a s)).
  rewrite lstrip_lower_sep, !lower_len.
  by destruct (_ =? 2)%nat.
Qed.

Lemma parse_lower (s : string) :
  parse (Str.lower s)
  = MkPath (root (parse s)) (Str.lower <$> parts (parse s)).
Proof.
  unfold parse. rewrite splitroot_lower.
  destruct (splitroot s) as [r rel]. simpl. by rewrite components_lower.
Qed.

Lemma rfind_lower_dot (s : string) :
  Str.rfind "." (Str.lower s) = Str.rfind "." s.
Proof.
  induction s as [| a s IH]; [done |].
  cbn [Str.lower Str.rfind]. by rewrite IH, lower_char_eqb_dot.
Qed.

Lemma drop_lower (n : nat) (s : string) :
  Str.drop n (Str.lower s) = Str.lower (Str.drop n s).
Proof. revert s. induction n as [| n IH]; intros [| a s]; try done. apply IH. Qed.

Lemma last_fmap_lower (l : list string) :
  List.last (Str.lower <$> l) "" = Str.lower (List.last l "").
Proof.
  by induction l as [| x [| y l] IH].
Qed.

Lemma suffix_lower (s : string) :
  suffix (parse (Str.lower s)) = Str.lower (suffix (parse s)).
Proof.
  unfold suffix, name. rewrite parse_lower. cbn [parts].
  rewrite last_fmap_lower, rfind_lower_dot, lower_len, drop_lower.
  by destruct (_ && _).
Qed.

(** X1. The extension check accepts a file name exactly when its
    suffix (what follows the last dot of the last component, the dot
    neither first nor last in it) is [.jpg], [.jpeg] or [.png] up to
    case; every other name is refused with the one message that lists
    the allowed types. *)
Theorem extension_check_reads_the_last_suffix (L : Libs) (filename : string) :
  (validate_file_extension L filename = Ok true
   ↔ Str.lower (suffix (parse filename)) ∈ [".jpg"; ".jpeg"; ".png"])
  ∧ (validate_file_extension L filename = Ok true
     ∨ validate_file_extension L filename
       = Raise (Exn ValidationError
                  ("Invalid file type. Allowed types: "
                   +:+ Str.join ", " (set_iter L ALLOWED_EXTENSIONS)))).
Proof.
  split.
  - split; [apply validate_file_extension_suffix |].
    intros Hin. unfold validate_file_extension.
    rewrite bool_decide_eq_false_2; [done |].
    intros Hout. apply Hout.
    repeat (apply elem_of_cons in Hin as [-> | Hin]; [by vm_compute |]).
    by apply elem_of_nil in Hin.
  - unfold validate_file_extension. case_bool_decide; [by right | by left].
Qed.

(** X2. The extension check does not look at the case of the name, and
    the extension under which an upload is stored is in lower case
    whatever the case of the name. *)
Theorem extension_check_ignores_case (L : Libs) (filename : string) :
  validate_file_extension L (Str.lower filename)
  = validate_file_extension L filename
  ∧ (∀ cfg image_id bytes,
       destination cfg image_id (MkUploadFile (Str.lower filename) bytes)
       = destination cfg image_id (MkUploadFile filename bytes)).
Proof.
  split.
  - unfold validate_file_extension. by rewrite suffix_lower, lower_idem.
  - intros cfg image_id bytes. unfold destination. simpl.
    by rewrite suffix_lower, lower_idem.
Qed.

(** ** More on [save_image] *)

Section preserves.
Context (R : World → World → Prop).

Lemma preserves_silent `{!Reflexive R} {A} (m : io A) :
  (∀ w, (m w).2 = w) → preserves R m.
Proof. intros H w. by rewrite H. Qed.

Lemma preserves_bind `{!Transitive R} {A B} (m : io A) (k : A → io B) :
  preserves R m → (∀ a, preserves R (k a)) → preserves R (io_bind m k).
Proof.
  intros Hm Hk w. unfold io_bind. specialize (Hm w).
  destruct (m w) as [[a | e] w1]; simpl in *; [| done].
  etrans; [done | apply Hk].
Qed.

Lemma preserves_try `{!Transitive R} {A} (body : io A) (handler : exn → io A) :
  preserves R body → (∀ e, preserves R (handler e)) →
  preserves R (try_except body handler).
Proof.
  intros Hm Hk w. unfold try_except. specialize (Hm w).
  destruct (body w) as [[a | e] w1]; simpl in *; [done |].
  etrans; [done | apply Hk].
Qed.

Lemma preserves_if {A} (b : bool) (m1 m2 : io A) :
  preserves R m1 → preserves R m2 → preserves R (if b then m1 else m2).
Proof. by destruct b. Qed.

End preserves.

Global Instance same_but_at_refl (q : string) : Reflexive (same_but_at q).
Proof. intros w. by repeat split. Qed.

Global Instance same_but_at_trans (q : string) : Transitive (same_but_at q).
Proof.
  intros w1 w2 w3 (Hf & ? & ? & ? & ? & ? & ?) (Hf' & ? & ? & ? & ? & ? & ?).
  repeat split; try congruence; [| lia].
  intros k Hk. by rewrite Hf', Hf.
Qed.

Lemma same_but_at_open_wb (p : Path) : preserves (same_but_at (str p)) (open_wb p).
Proof.
  intros w. unfold open_wb. destruct (fault w SysOpen (str p)); simpl; [done |].
  repeat split; try done. intros k Hk. simpl. by rewrite lookup_insert_ne.
Qed.

Lemma same_but_at_write_close (p : Path) (c : list byte) :
  preserves (same_but_at (str p)) (write_close p c).
Proof.
  intros w. unfold write_close. destruct (fault w SysWrite (str p)); simpl;
    (repeat split; try done; intros k Hk; simpl; by rewrite lookup_insert_ne).
Qed.

Lemma same_but_at_unlink_if_exists (p : Path) :
  preserves (same_but_at (str p)) (unlink_if_exists p).
Proof.
  intros w. unfold unlink_if_exists, io_bind, exists_, unlink.
  destruct (files w !! str p) as [b |] eqn:Hb.
  - rewrite bool_decide_eq_true_2 by done. rewrite Hb.
    destruct (fault w SysUnlink (str p)); simpl; [done |].
    repeat split; try done. intros k Hk. simpl. by rewrite lookup_delete_ne.
  - by rewrite bool_decide_eq_false_2 by (by intros [? ?]).
Qed.

Lemma same_but_at_uuid4 (q : string) : preserves (same_but_at q) uuid4.
Proof. intros w. unfold uuid4. simpl. repeat split; try done. simpl. lia. Qed.

Section save_image_facts.
Context (L : Libs) (cfg : Config).

(** X3. Both cheap checks come before anything else: a refused name or
    an oversized content ends the call with the world exactly as it was
    (no identifier drawn, nothing written), a name refused wins over a
    size refused, and a content of exactly the maximum size passes the
    size check. *)
Theorem save_image_checks_before_it_writes (w : World) (file : UploadFile) :
  let size := Z.of_nat (length (content file)) in
  (∀ e, validate_file_extension L (filename file) = Raise e →
        save_image L cfg file w = (Raise e, w))
  ∧ (validate_file_extension L (filename file) = Ok true →
     (MAX_FILE_SIZE cfg < size)%Z →
     save_image L cfg file w
     = (Raise (Exn ValidationError
                 ("File too large. Maximum size: "
                  +:+ float_str L (Float.truediv (MAX_FILE_SIZE cfg) (1024 * 1024))
                  +:+ "MB")), w))
  ∧ ((size ≤ MAX_FILE_SIZE cfg)%Z → validate_file_size L cfg size = Ok true).
Proof.
  intros size. split; [| split].
  - intros e He. unfold save_image, io_bind, lift. by rewrite He.
  - intros Hext Hbig. unfold save_image, io_bind, lift. rewrite Hext.
    fold size. unfold validate_file_size.
    by destruct (Z.ltb_spec (MAX_FILE_SIZE cfg) size); [| lia].
  - intros Hle. unfold validate_file_size.
    by destruct (Z.ltb_spec (MAX_FILE_SIZE cfg) size); [lia |].
Qed.

Lemma save_image_preserves (file : UploadFile) (w : World) :
  same_but_at (str (destination cfg (next_image_id w) file)) w
    (save_image L cfg file w).2.
Proof.
  unfold save_image.
  unfold io_bind at 1, lift at 1.
  destruct (validate_file_extension L (filename file)); [| done].
  unfold io_bind at 1, lift at 1.
  destruct (validate_file_size L cfg _); [| done].
  unfold io_bind at 1, uuid4 at 1.
  fold (next_image_id w).
  set (file_path := destination cfg (next_image_id w) file).
  etrans; [apply (same_but_at_uuid4 (str file_path) w) |].
  match goal with |- same_but_at _ ?w1 (?m ?w1').2 =>
    change w1' with w1; generalize w1;
    change (preserves (same_but_at (str file_path)) m)
  end.
  apply (preserves_bind (same_but_at (str file_path))).
  - apply (preserves_try (same_but_at (str file_path))).
    + apply (preserves_bind (same_but_at (str file_path))); [apply same_but_at_open_wb | intros _].
      apply (preserves_bind (same_but_at (str file_path))); [apply same_but_at_write_close | intros _].
      apply (preserves_bind (same_but_at (str file_path))); [| intros _; by apply (preserves_silent (same_but_at (str file_path)))].
      apply (preserves_silent (same_but_at (str file_path))). intros w1. apply validate_file_content_world.
    + intros e. apply (preserves_if (same_but_at (str file_path)));
        (apply (preserves_bind (same_but_at (str file_path))); [apply same_but_at_unlink_if_exists |]);
        intros; by apply (preserves_silent (same_but_at (str file_path))).
  - intros _. apply (preserves_bind (same_but_at (str file_path))); intros; by apply (preserves_silent (same_but_at (str file_path))).
Qed.


(** X4. Whatever its outcome, a call of [save_image] changes no file
    other than the one at its destination, and leaves the clock, the
    failure behaviour of the system, the identifier supply and the
    process-wide generator as they were. *)
Theorem save_image_touches_only_its_destination
  (w : World) (file : UploadFile) :
  let w' := (save_image L cfg file w).2 in
  (∀ q, q ≠ str (destination cfg (next_image_id w) file) →
        files w' !! q = files w !! q)
  ∧ fault w' = fault w
  ∧ uuid_supply w' = uuid_supply w
  ∧ uuid_drawn w ≤ uuid_drawn w'
  ∧ utcnow w' = utcnow w
  ∧ global_seed w' = global_seed w.
Proof.
  destruct (save_image_preserves file w) as (Hf & ? & ? & ? & ? & ? & ?).
  by repeat split.
Qed.








(** X7. What a successful call of [save_image] stored has passed all
    three checks (suffix, size, sniffed type); the store gained exactly
    the content at the destination; and the dictionary returned holds
    the identifier drawn, the name as declared, the number of bytes and
    the time of the call followed by [Z]. *)
Theorem save_image_stores_only_checked_content
  (w w' : World) (file : UploadFile) (meta : UploadMeta) :
  let file_path := destination cfg (next_image_id w) file in
  save_image L cfg file w = (Ok meta, w') →
  Str.lower (suffix (parse (filename file))) ∈ [".jpg"; ".jpeg"; ".png"]
  ∧ (Z.of_nat (length (content file)) ≤ MAX_FILE_SIZE cfg)%Z
  ∧ (∃ mime_type, magic_mime L (content file) = inr mime_type
                  ∧ mime_type ∈ ALLOWED_MIME_TYPES)
  ∧ files w' = <[str file_path := content file]> (files w)
  ∧ uuid_drawn w' = S (uuid_drawn w)
  ∧ meta = MkUploadMeta (next_image_id w) (filename file)
             (Z.of_nat (length (content file))) (utcnow w +:+ "Z").
Proof.
  intros file_path Hsave.
  destruct (save_image_Ok_inv L cfg _ _ _ _ Hsave) as (Hext & Hsize & Hopen & Hwrite).
  rewrite save_image_written in Hsave by done.
  destruct (decide (sniff_rejects L (content file))) as [Hrej | Hacc].
  { destruct (fault w SysUnlink _); discriminate. }
  injection Hsave as <- <-.
  split; [by eapply validate_file_extension_suffix |].
  split.
  { unfold validate_file_size in Hsize.
    destruct (Z.ltb_spec (MAX_FILE_SIZE cfg) (Z.of_nat (length (content file))));
      [done | lia]. }
  split.
  { unfold sniff_rejects in Hacc.
    destruct (magic_mime L (content file)) as [? | mime_type]; [done |].
    exists mime_type. split; [done |]. by apply dec_stable. }
  split; [by simpl; rewrite insert_insert_eq |].
  done.
Qed.

End save_image_facts.

(** ** Looking up and checking stored files *)

Section lookup_facts.
Context (L : Libs) (cfg : Config).

(** X8. [validate_file_content] succeeds exactly when there is a file at
    the path and the type sniffed from its bytes is [image/jpeg] or
    [image/png]; it then returns [True] and that type; and it never
    changes the world, whatever its outcome. *)
Theorem content_check_succeeds_on_allowed_types
  (p : Path) (w : World) (mime_type : string) :
  (validate_file_content L p w = (Ok (true, mime_type), w)
   ↔ ∃ b, files w !! str p = Some b
          ∧ magic_mime L b = inr mime_type
          ∧ mime_type ∈ ALLOWED_MIME_TYPES)
  ∧ (∀ flag r w', validate_file_content L p w = (Ok (flag, r), w') →
                  flag = true ∧ (r = "image/jpeg" ∨ r = "image/png"))
  ∧ (validate_file_content L p w).2 = w.
Proof.
  assert (Hcases : ∀ flag r w',
             validate_file_content L p w = (Ok (flag, r), w') →
             flag = true ∧ w' = w
             ∧ ∃ b, files w !! str p = Some b ∧ magic_mime L b = inr r
                    ∧ r ∈ ALLOWED_MIME_TYPES).
  { intros flag r w'.
    unfold validate_file_content, try_except, io_bind, from_file.
    destruct (files w !! str p) as [b |]; [| done].
    destruct (magic_mime L b) as [msg | m] eqn:Hm; [done |].
    case_bool_decide as Hin; [done |]. intros [= <- <- <-].
    repeat split; try done. by exists b. }
  split; [split |].
  - intros H. by destruct (Hcases _ _ _ H) as (_ & _ & ?).
  - intros (b & Hb & Hm & Hin).
    rewrite (validate_file_content_stored L p b w Hb), Hm.
    by rewrite bool_decide_eq_false_2 by (by intros ?).
  - split; [| apply validate_file_content_world].
    intros flag r w' H. destruct (Hcases _ _ _ H) as (-> & _ & b & _ & _ & Hin).
    split; [done |]. unfold ALLOWED_MIME_TYPES in Hin.
    apply elem_of_union in Hin as [Hin%elem_of_singleton | Hin%elem_of_singleton]; auto.
Qed.

Lemma probe_world (image_id : string) (exts : list string) (w : World) :
  (probe cfg image_id exts w).2 = w.
Proof. rewrite probe_list_find. by destruct (list_find _ _) as [[? ?] |]. Qed.


End lookup_facts.

(** ** Identifiers and the paths made from them *)

Lemma app_assoc_str (s t u : string) : (s +:+ t) +:+ u = s +:+ t +:+ u.
Proof. induction s as [| a s IH]; [done |]. by rewrite !app_cons, IH. Qed.

Lemma hex_digits_app (n m : nat) (s t : string) :
  hex_digits n s → hex_digits m t → hex_digits (n + m) (s +:+ t).
Proof.
  intros [Hn Hs] [Hm Ht]. split.
  - by rewrite len_app, Hn, Hm.
  - by rewrite all_chars_app, Hs, Ht.
Qed.

Lemma remove_dash_hex (n : nat) (s : string) :
  hex_digits n s → Str.remove_char "-" s = s.
Proof.
  intros [_ Hs]. apply remove_char_absent.
  eapply all_chars_impl; [| done]. apply is_hex_not_dash.
Qed.

Lemma image_id_of_canonical_uuid (u : string) :
  canonical_uuid u →
  hex_digits 16 (image_id_of_uuid u)
  ∧ image_id_of_uuid u
    = Str.take 8 u +:+ Str.take 4 (Str.drop 9 u) +:+ Str.take 4 (Str.drop 14 u).
Proof.
  intros (a & b & c & d & e & -> & Ha & Hb & Hc & Hd & He).
  assert (Hid : image_id_of_uuid
                  (a +:+ "-" +:+ b +:+ "-" +:+ c +:+ "-" +:+ d +:+ "-" +:+ e)
                = a +:+ b +:+ c).
  { unfold image_id_of_uuid. rewrite !remove_char_app.
    rewrite (remove_dash_hex 8 a), (remove_dash_hex 4 b), (remove_dash_hex 4 c),
      (remove_dash_hex 4 d), (remove_dash_hex 12 e) by done.
    change (Str.remove_char "-" "-") with "". rewrite !app_nil_l_str.
    pose proof (hex_digits_app _ _ _ _ Ha (hex_digits_app _ _ _ _ Hb Hc)) as [Hlen _].
    replace (a +:+ b +:+ c +:+ d +:+ e) with ((a +:+ b +:+ c) +:+ d +:+ e)
      by by rewrite !app_assoc_str.
    replace 16 with (Str.len (a +:+ b +:+ c)) by done.
    apply take_len_app. }
  rewrite Hid.
  split; [apply (hex_digits_app 8 8), (hex_digits_app 4 4); done |].
  destruct Ha as [Hla _], Hb as [Hlb _], Hc as [Hlc _].
  do 9 (destruct a as [| ? a]; try done).
  do 5 (destruct b as [| ? b]; try done).
  do 5 (destruct c as [| ? c]; try done).
Qed.

Lemma hex_digits_no_separator (n : nat) (s : string) :
  hex_digits n s → no_separator s.
Proof.
  intros [_ Hall]. eapply all_chars_impl; [| done]. apply is_hex_not_sep.
Qed.

Lemma validate_image_id_long (image_id : string) :
  8 ≤ Str.len image_id → validate_image_id image_id = Ok true.
Proof.
  intros Hlen. unfold validate_image_id.
  rewrite bool_decide_eq_false_2 by (intros ->; simpl in Hlen; lia).
  by destruct (Nat.ltb_spec (Str.len image_id) 8) as [? | _]; [lia |].
Qed.

(** X10. From the text of a UUID, [save_image] makes an identifier of
    16 lower-case hexadecimal digits: the first three groups of the
    UUID, without the dashes.  Such an identifier has no path separator
    and passes [validate_image_id]. *)
Theorem generated_identifier_is_sixteen_hex_digits (u : string) :
  canonical_uuid u →
  hex_digits 16 (image_id_of_uuid u)
  ∧ image_id_of_uuid u
    = Str.take 8 u +:+ Str.take 4 (Str.drop 9 u) +:+ Str.take 4 (Str.drop 14 u)
  ∧ no_separator (image_id_of_uuid u)
  ∧ validate_image_id (image_id_of_uuid u) = Ok true.
Proof.
  intros Hu. destruct (image_id_of_canonical_uuid u Hu) as [Hhex Hslices].
  split; [done |]. split; [done |].
  split; [by eapply hex_digits_no_separator |].
  apply validate_image_id_long. destruct Hhex as [-> _]. lia.
Qed.

Lemma collapse_snoc (anchored : bool) (stack l : list string) (x : string) :
  x ≠ ".." →
  collapse anchored stack (l ++ [x]) = collapse anchored stack l ++ [x].
Proof.
  intros Hx. revert stack. induction l as [| c l IH]; intros stack.
  - simpl. rewrite bool_decide_eq_false_2 by done. by rewrite reverse_cons.
  - simpl. case_bool_decide; [| apply IH].
    destruct stack as [| top stack]; [destruct anchored; apply IH |].
    case_bool_decide; apply IH.
Qed.

Lemma app_ext_facts (image_id ext : string) :
  ext ∈ [".jpg"; ".jpeg"; ".png"] →
  ∃ r, ext = String "." r ∧ Str.rfind "." r = (-1)%Z ∧ 2 ≤ Str.len r
       ∧ no_separator ext.
Proof.
  intros Hin.
  repeat (apply elem_of_cons in Hin as [-> | Hin];
          [eexists; split; [reflexivity |];
           split; [reflexivity |]; split; [simpl; lia | reflexivity] |]).
  by apply elem_of_nil in Hin.
Qed.

(** The path joined from a plain identifier is a child of the upload
    directory. *)
Lemma joinpath_plain (cfg : Config) (image_id ext : string) :
  image_id ≠ "" → no_separator image_id →
  ext ∈ [".jpg"; ".jpeg"; ".png"] →
  UPLOAD_DIR cfg // (image_id +:+ ext)
  = MkPath (root (UPLOAD_DIR cfg))
           (parts (UPLOAD_DIR cfg) ++ [image_id +:+ ext])
  ∧ image_id +:+ ext ≠ "..".
Proof.
  intros Hne Hsep Hext.
  destruct (app_ext_facts image_id ext Hext) as (r & -> & Hr & Hlen & Hsep').
  assert (Hkey : no_separator (image_id +:+ String "." r)).
  { unfold no_separator in *. by rewrite all_chars_app, Hsep, Hsep'. }
  assert (Hnot : ∀ s, Str.len s ≤ 2 → image_id +:+ String "." r ≠ s).
  { intros s Hs Heq. apply (f_equal Str.len) in Heq.
    rewrite len_app in Heq. simpl in Heq. lia. }
  split; [| apply Hnot; simpl; lia].
  rewrite joinpath_cases, startswith_no_separator by done.
  f_equal. f_equal. unfold components.
  rewrite split_no_separator by done.
  rewrite filter_cons, filter_nil.
  rewrite decide_True; [done |].
  split; apply Hnot; simpl; lia.
Qed.

Lemma stem_suffix_plain (cfg : Config) (image_id ext : string) :
  image_id ≠ "" → no_separator image_id →
  ext ∈ [".jpg"; ".jpeg"; ".png"] →
  stem (UPLOAD_DIR cfg // (image_id +:+ ext)) = image_id
  ∧ suffix (UPLOAD_DIR cfg // (image_id +:+ ext)) = ext.
Proof.
  intros Hne Hsep Hext.
  destruct (joinpath_plain cfg image_id ext Hne Hsep Hext) as [-> _].
  destruct (app_ext_facts image_id ext Hext) as (r & -> & Hr & Hlen & Hsep').
  assert (Hname : name (MkPath (root (UPLOAD_DIR cfg))
                   (parts (UPLOAD_DIR cfg) ++ [image_id +:+ String "." r]))
                  = image_id +:+ String "." r).
  { unfold name. simpl. by rewrite last_last. }
  assert (Hcond : ((0 <? Z.of_nat (Str.len image_id))
                   && (Z.of_nat (Str.len image_id)
                       <? Z.of_nat (Str.len (image_id +:+ String "." r)) - 1))%Z
                  = true).
  { rewrite len_app. simpl. destruct image_id; [done |].
    apply andb_true_iff. split; apply Z.ltb_lt; simpl; lia. }
  split.
  - unfold stem. rewrite Hname, rfind_app, Hcond by done.
    rewrite Nat2Z.id. apply take_len_app.
  - unfold suffix. rewrite Hname, rfind_app, Hcond by done.
    rewrite Nat2Z.id. clear. induction image_id as [| a s IH]; [done |].
    rewrite app_cons. apply IH.
Qed.

Lemma inside_child (dir : Path) (x : string) :
  x ≠ ".." → inside dir (MkPath (root dir) (parts dir ++ [x])).
Proof.
  intros Hx. split; [done |]. simpl.
  rewrite collapse_snoc by done. by apply prefix_app_r.
Qed.

(** X11. For an identifier without a path separator (and not empty),
    the path probed for each extension is a child of the upload
    directory, so it lies inside it; its stem is the identifier and its
    suffix the extension. *)
Theorem plain_identifier_stays_in_upload_directory
  (cfg : Config) (image_id ext : string) :
  image_id ≠ "" → no_separator image_id →
  ext ∈ [".jpg"; ".jpeg"; ".png"] →
  let p := UPLOAD_DIR cfg // (image_id +:+ ext) in
  p = MkPath (root (UPLOAD_DIR cfg))
             (parts (UPLOAD_DIR cfg) ++ [image_id +:+ ext])
  ∧ inside (UPLOAD_DIR cfg) p
  ∧ stem p = image_id
  ∧ suffix p = ext.
Proof.
  intros Hne Hsep Hext p.
  destruct (joinpath_plain cfg image_id ext Hne Hsep Hext) as [Hp Hdots].
  destruct (stem_suffix_plain cfg image_id ext Hne Hsep Hext) as [Hstem Hsuffix].
  split; [done |]. split; [| done].
  unfold p. rewrite Hp. by apply inside_child.
Qed.

(** ** More on the analysis *)

Section more_analysis.
Context (L : Libs) {G : Generator}.

Lemma readable_or_not (p : Path) (w : World) :
  unreadable L p w ∨ ∃ width height, reads_as L p w (width, height).
Proof.
  unfold unreadable, reads_as.
  destruct (files w !! str p) as [b |] eqn:Hb; [| by left].
  destruct (pil_size L b) as [msg | [width height]] eqn:Hsize.
  - left. intros ? [= <-]. eauto.
  - right. by exists width, height, b.
Qed.

(** X12. With a generator that keeps [_randbelow] in range, every
    report, the fixed one included, is well formed: the skin type is one
    of the five, the issues are 1 to 3 distinct members of [ISSUES],
    there is one recommendation per issue, the confidence lies between
    0.75 and 0.94, the identifier is the stem of the path and the time
    stamp is the clock's followed by [Z]. *)
Theorem every_report_is_well_formed (p : Path) (w : World) :
  randbelow_in_range G →
  ∃ r w',
    analyze_image L p w = (Ok r, w')
    ∧ skin_type r ∈ SKIN_TYPES
    ∧ 1 ≤ length (issues r) ≤ 3
    ∧ NoDup (issues r)
    ∧ issues r ⊆ ISSUES
    ∧ length (recommendations r) = length (issues r)
    ∧ (0.75 <=? confidence r)%float = true
    ∧ (confidence r <=? 0.94)%float = true
    ∧ image_id r = stem p
    ∧ analyzed_at r = utcnow w +:+ "Z".
Proof.
  intros Hrb.
  destruct (readable_or_not p w) as [Hun | (width & height & Hread)].
  - rewrite (analyze_image_unreadable L p w Hun).
    do 2 eexists. split; [done |]. simpl.
    split; [unfold SKIN_TYPES; do 3 apply list_elem_of_further; apply list_elem_of_here |].
    split; [lia |].
    split; [apply NoDup_singleton |].
    split; [intros x ->%list_elem_of_singleton; apply list_elem_of_here |].
    by repeat split.
  - rewrite (analyze_image_readable L p w _ _ Hread).
    destruct (findings_of_seed_spec (width + height) Hrb)
      as (skin & g1 & picked & g2 & texts
          & _ & _ & Hskin & Hlen & Hnd & Hsub & Hall & ->).
    do 2 eexists. split; [done |]. simpl.
    assert (Hperm : sort picked ≡ₚ picked) by apply merge_sort_Permutation.
    pose proof (num_issues_range (width + height)) as Hnum.
    assert (Hlen' : length (sort picked) = length picked) by by rewrite Hperm.
    pose proof (Z.mod_pos_bound (width + height) 20 ltac:(lia)) as Hk.
    destruct (confidence_table _ Hk) as (_ & Hlo & Hhi).
    split; [done |]. split; [lia |].
    split; [by rewrite Hperm |].
    split; [intros x Hx; apply Hsub; by rewrite <- Hperm |].
    split; [symmetry; by eapply Forall2_length |].
    by repeat split.
Qed.

Lemma analysis_store_unchanged (p : Path) (w : World) :
  files (analyze_image L p w).2 = files w.
Proof.
  destruct (readable_or_not p w) as [Hun | (width & height & Hread)].
  - by rewrite (analyze_image_unreadable L p w Hun).
  - by rewrite (analyze_image_readable L p w _ _ Hread).
Qed.

(** X13. The analysis reads the store and never writes it: a call of
    [analyze_image] leaves the files, their history, the identifier
    supply and the clock as they were; it reseeds the process-wide
    generator with width + height when the image opens, and changes
    nothing at all when it does not. *)
Theorem analysis_only_reseeds_the_generator (p : Path) (w : World) :
  let w' := (analyze_image L p w).2 in
  files w' = files w
  ∧ seen w' = seen w
  ∧ uuid_drawn w' = uuid_drawn w
  ∧ utcnow w' = utcnow w
  ∧ (∀ width height, reads_as L p w (width, height) →
                     global_seed w' = Some (width + height)%Z)
  ∧ (unreadable L p w → w' = w).
Proof.
  destruct (readable_or_not p w) as [Hun | (width & height & Hread)].
  - rewrite (analyze_image_unreadable L p w Hun). simpl.
    repeat split; try done.
    intros width height (b & Hb & Hsize).
    destruct (Hun b Hb) as [msg Hmsg]. congruence.
  - rewrite (analyze_image_readable L p w _ _ Hread). simpl.
    repeat split; try done.
    + intros width' height' (b' & Hb' & Hsize').
      destruct Hread as (b & Hb & Hsize). congruence.
    + intros Hun. destruct Hread as (b & Hb & Hsize).
      destruct (Hun b Hb) as [msg Hmsg]. congruence.
Qed.

End more_analysis.

(** ** The route handlers *)


Lemma analyze_image_total (L : Libs) {G : Generator} (p : Path) (w : World) :
  ∃ r w', analyze_image L p w = (Ok r, w').
Proof.
  unfold analyze_image, io_bind at 1, try_except.
  destruct (io_bind (image_open_size L p) _ w) as [[f | e] w1]; simpl; eauto.
Qed.


Section route_facts.
Context (L : Libs) {G : Generator} (cfg : Config).



End route_facts.

(** ** The API key *)

(** X16. The key check passes a request on to the rest of the
    application, and answers what that answers, when its path is one of
    the four open ones or when the first [x-api-key] header is the
    configured key and that key is not empty; every other request is
    answered 401 without the application being called, so the world is
    unchanged.  With an empty configured key no request to a protected
    path gets through. *)
Theorem api_key_is_checked_before_the_application
  (API_KEY : string) (request : Main.Request)
  (call_next : Main.Request → Main.server Main.Response) (w : World) :
  let open := Main.url_path request
              ∈ ["/health"; "/docs"; "/redoc"; "/openapi.json"] in
  let key := Main.headers_get (Main.headers request) "X-API-Key" in
  let refused :=
    (Main.MkResponse 401 [("detail", "Missing or invalid API key")], w,
     [MkLog WARNING ("Unauthorized request to " +:+ Main.url_path request)]) in
  (open ∨ (key = Some API_KEY ∧ API_KEY ≠ "") →
   Main.verify_api_key API_KEY request call_next w = call_next request w)
  ∧ (¬ open → key ≠ Some API_KEY →
     Main.verify_api_key API_KEY request call_next w = refused)
  ∧ (¬ open → API_KEY = "" →
     Main.verify_api_key API_KEY request call_next w = refused)
  ∧ key = snd <$> head (filter (λ kv, kv.1 = "x-api-key") (Main.headers request)).
Proof.
  intros open key refused. unfold Main.verify_api_key. fold key.
  split; [| split; [| split]].
  - intros [Hopen | [Hkey Hne]].
    + by rewrite bool_decide_eq_true_2.
    + case_bool_decide; [done |].
      rewrite bool_decide_eq_false_2; [done |].
      rewrite Hkey. intros [? | [[= ?] | ?]]; done.
  - intros Hclosed Hkey. rewrite bool_decide_eq_false_2 by done.
    rewrite bool_decide_eq_true_2; [done |]. by right; right.
  - intros Hclosed ->. rewrite bool_decide_eq_false_2 by done.
    rewrite bool_decide_eq_true_2; [done |].
    destruct key as [[| ? ?] |]; [by right; left | by right; right | by left].
  - unfold key, Main.headers_get.
    change (Str.lower "X-API-Key") with "x-api-key".
    induction (Main.headers request) as [| kv l IH]; [done |].
    cbn [list_find]. rewrite filter_cons. case_decide; [done |].
    rewrite <- IH. by destruct (list_find _ l) as [[? ?] |].
Qed.

(** ** From upload to analysis *)

Lemma analyze_image_id (L : Libs) {G : Generator}
  (p : Path) (w w' : World) (r : Report) :
  analyze_image L p w = (Ok r, w') → image_id r = stem p.
Proof.
  unfold analyze_image, io_bind at 1, try_except.
  destruct (io_bind (image_open_size L p) _ w) as [[f | e] w1]; simpl;
    by intros [= <- _].
Qed.

(** X17. An upload that [save_image] accepted under an identifier made
    from the text of a UUID can be analysed: on the identifier returned
    the analysis handler returns a report, and the report carries that
    same identifier. *)
Theorem accepted_upload_can_be_analysed
  (L : Libs) {G : Generator} (cfg : Config)
  (w w' : World) (file : UploadFile) (meta : UploadMeta) :
  canonical_uuid (uuid_supply w (uuid_drawn w)) →
  save_image L cfg file w = (Ok meta, w') →
  ∃ r w'' log,
    AnalysisRoute.analyze_image L cfg
      (AnalysisRoute.MkAnalysisRequest (meta_image_id meta)) w'
    = (Returned r, w'', log)
    ∧ image_id r = meta_image_id meta
    ∧ files w'' = files w'.
Proof.
  intros Hu Hsave.
  destruct (save_image_Ok_inv _ _ _ _ _ _ Hsave) as (Hext & Hsize & Hopen & Hwrite).
  rewrite save_image_written in Hsave by done.
  destruct (decide (sniff_rejects L (content file))) as [Hrej | Hacc].
  { destruct (fault w SysUnlink _); discriminate. }
  injection Hsave as <- <-. simpl.
  set (id := next_image_id w).
  set (file_path := destination cfg id file).
  set (w2 := written file_path (content file) w).
  destruct (image_id_of_canonical_uuid _ Hu) as [[Hlen Hall] _].
  fold (next_image_id w) in Hlen, Hall. fold id in Hlen, Hall.
  assert (Hsep : no_separator id) by by eapply (hex_digits_no_separator 16).
  assert (Hne : id ≠ "") by (intros Heq; by rewrite Heq in Hlen).
  pose proof (validate_file_extension_suffix L _ _ Hext) as Hin.
  destruct (probe_present cfg id [".jpg"; ".jpeg"; ".png"] w2 _ Hin)
    as (ext & Hext' & Hsome & Hprobe).
  { unfold w2, written. simpl. fold (destination cfg id file).
    fold file_path. by rewrite lookup_insert_eq. }
  destruct (analyze_image_total L (UPLOAD_DIR cfg // (id +:+ ext)) w2)
    as (r & w3 & Hrun).
  exists r, w3.
  unfold AnalysisRoute.analyze_image, AnalysisRoute.py,
    act_try, act_bind, act_log, act_io, lift. simpl.
  rewrite validate_image_id_long by lia. simpl.
  unfold get_image_path. rewrite Hprobe. simpl. rewrite Hrun. simpl.
  eexists. split; [done |]. split.
  - rewrite (analyze_image_id L _ _ _ _ Hrun).
    by apply stem_suffix_plain.
  - pose proof (analysis_store_unchanged L (UPLOAD_DIR cfg // (id +:+ ext)) w2) as Hst.
    by rewrite Hrun in Hst.
Qed.


(** X18. Whatever the declared file name, directories and dots
    included, an accepted upload whose identifier comes from the text
    of a UUID is stored in a child of the upload directory named by the
    identifier and the lower-cased suffix alone; that path lies inside
    the upload directory and holds the content. *)
Theorem accepted_upload_is_stored_inside_upload_directory
  (L : Libs) (cfg : Config)
  (w w' : World) (file : UploadFile) (meta : UploadMeta) :
  canonical_uuid (uuid_supply w (uuid_drawn w)) →
  save_image L cfg file w = (Ok meta, w') →
  let child := meta_image_id meta
               +:+ Str.lower (suffix (parse (filename file))) in
  let p := MkPath (root (UPLOAD_DIR cfg)) (parts (UPLOAD_DIR cfg) ++ [child]) in
  destination cfg (next_image_id w) file = p
  ∧ inside (UPLOAD_DIR cfg) p
  ∧ no_separator child
  ∧ files w' !! str p = Some (content file).
Proof.
  intros Hu Hsave child p.
  destruct (save_image_Ok_inv _ _ _ _ _ _ Hsave) as (Hext & Hsize & Hopen & Hwrite).
  rewrite save_image_written in Hsave by done.
  destruct (decide (sniff_rejects L (content file))) as [Hrej | Hacc].
  { destruct (fault w SysUnlink _); discriminate. }
  injection Hsave as <- <-. simpl in child.
  destruct (image_id_of_canonical_uuid _ Hu) as [[Hlen Hall] _].
  fold (next_image_id w) in Hlen, Hall.
  assert (Hsep : no_separator (next_image_id w))
    by by eapply (hex_digits_no_separator 16).
  assert (Hne : next_image_id w ≠ "") by (intros Heq; by rewrite Heq in Hlen).
  pose proof (validate_file_extension_suffix L _ _ Hext) as Hin.
  destruct (joinpath_plain cfg _ _ Hne Hsep Hin) as [Hp Hdots].
  assert (Hdest : destination cfg (next_image_id w) file = p) by done.
  split; [done |]. split; [by apply inside_child |]. split.
  - destruct (app_ext_facts (next_image_id w) _ Hin) as (r & Hr & _ & _ & Hsep').
    unfold child, no_separator in *. by rewrite all_chars_app, Hsep, Hsep'.
  - rewrite <- Hdest. unfold written. simpl. apply lookup_insert_eq.
Qed.


(** ** The further properties on concrete inputs *)



(** X7 on the PNG uploaded as [face.PNG]. *)
Lemma save_image_stores_only_checked_content_witness :
  Str.lower (suffix (parse (filename Demo.face))) ∈ [".jpg"; ".jpeg"; ".png"]
  ∧ (Z.of_nat (length (content Demo.face)) ≤ MAX_FILE_SIZE default_config)%Z
  ∧ (∃ mime_type, magic_mime Demo.libs (content Demo.face) = inr mime_type
                  ∧ mime_type ∈ ALLOWED_MIME_TYPES)
  ∧ files (save_image Demo.libs default_config Demo.face Demo.world0).2
    = <[str (destination default_config (next_image_id Demo.world0) Demo.face)
        := content Demo.face]> (files Demo.world0)
  ∧ uuid_drawn (save_image Demo.libs default_config Demo.face Demo.world0).2
    = S (uuid_drawn Demo.world0)
  ∧ MkUploadMeta Demo.id0 "face.PNG" 29 "2026-01-05T10:31:00Z"
    = MkUploadMeta (next_image_id Demo.world0) (filename Demo.face)
        (Z.of_nat (length (content Demo.face))) (utcnow Demo.world0 +:+ "Z").
Proof.
  apply (save_image_stores_only_checked_content
           Demo.libs default_config Demo.world0 _ Demo.face).
  vm_compute. reflexivity.
Defined.

Lemma uuid0_canonical : canonical_uuid Scenario.uuid0.
Proof.
  exists "3f2b8c1e", "9a4d", "4e6f", "8b7a", "1c2d3e4f5a6b".
  by repeat split.
Qed.

(** X10 on a UUID. *)
Lemma generated_identifier_is_sixteen_hex_digits_witness :
  hex_digits 16 (image_id_of_uuid Scenario.uuid0)
  ∧ image_id_of_uuid Scenario.uuid0
    = Str.take 8 Scenario.uuid0 +:+ Str.take 4 (Str.drop 9 Scenario.uuid0)
      +:+ Str.take 4 (Str.drop 14 Scenario.uuid0)
  ∧ no_separator (image_id_of_uuid Scenario.uuid0)
  ∧ validate_image_id (image_id_of_uuid Scenario.uuid0) = Ok true.
Proof.
  apply (generated_identifier_is_sixteen_hex_digits Scenario.uuid0).
  apply uuid0_canonical.
Defined.

(** X11 on the identifier made from that UUID. *)
Lemma plain_identifier_stays_in_upload_directory_witness :
  UPLOAD_DIR default_config // (Demo.id0 +:+ ".png")
  = MkPath (root (UPLOAD_DIR default_config))
           (parts (UPLOAD_DIR default_config) ++ [Demo.id0 +:+ ".png"])
  ∧ inside (UPLOAD_DIR default_config)
           (UPLOAD_DIR default_config // (Demo.id0 +:+ ".png"))
  ∧ stem (UPLOAD_DIR default_config // (Demo.id0 +:+ ".png")) = Demo.id0
  ∧ suffix (UPLOAD_DIR default_config // (Demo.id0 +:+ ".png")) = ".png".
Proof.
  apply (plain_identifier_stays_in_upload_directory
           default_config Demo.id0 ".png").
  - done.
  - reflexivity.
  - do 2 apply list_elem_of_further. apply list_elem_of_here.
Defined.

(** X12 on a path at which there is no file. *)
Lemma every_report_is_well_formed_witness :
  ∃ r w',
    analyze_image Demo.libs (G := Demo.lcg) (parse "uploads/a.png") Demo.world0
    = (Ok r, w')
    ∧ skin_type r ∈ SKIN_TYPES
    ∧ 1 ≤ length (issues r) ≤ 3
    ∧ NoDup (issues r)
    ∧ issues r ⊆ ISSUES
    ∧ length (recommendations r) = length (issues r)
    ∧ (0.75 <=? confidence r)%float = true
    ∧ (confidence r <=? 0.94)%float = true
    ∧ image_id r = stem (parse "uploads/a.png")
    ∧ analyzed_at r = utcnow Demo.world0 +:+ "Z".
Proof.
  apply (every_report_is_well_formed Demo.libs (G := Demo.lcg)
           (parse "uploads/a.png") Demo.world0 lcg_in_range).
Defined.

(** X17 on the PNG uploaded as [face.PNG]. *)
Lemma accepted_upload_can_be_analysed_witness :
  ∃ r w'' log,
    AnalysisRoute.analyze_image Demo.libs (G := Demo.lcg) default_config
      (AnalysisRoute.MkAnalysisRequest Demo.id0)
      (save_image Demo.libs default_config Demo.face Demo.world0).2
    = (Returned r, w'', log)
    ∧ image_id r = Demo.id0
    ∧ files w''
      = files (save_image Demo.libs default_config Demo.face Demo.world0).2.
Proof.
  apply (accepted_upload_can_be_analysed Demo.libs (G := Demo.lcg)
           default_config Demo.world0 _ Demo.face
           (MkUploadMeta Demo.id0 "face.PNG" 29 "2026-01-05T10:31:00Z")).
  - apply uuid0_canonical.
  - vm_compute. reflexivity.
Defined.

(** X18 on a PNG uploaded under a name with directories in it. *)
Lemma accepted_upload_is_stored_inside_upload_directory_witness :
  destination default_config (next_image_id Demo.world0) Scenario.hostile
  = MkPath "" ["uploads"; "3f2b8c1e9a4d4e6f.png"]
  ∧ inside (UPLOAD_DIR default_config)
           (MkPath "" ["uploads"; "3f2b8c1e9a4d4e6f.png"])
  ∧ no_separator "3f2b8c1e9a4d4e6f.png"
  ∧ files (save_image Demo.libs default_config Scenario.hostile Demo.world0).2
      !! "uploads/3f2b8c1e9a4d4e6f.png"
    = Some Demo.png_800x600.
Proof.
  apply (accepted_upload_is_stored_inside_upload_directory
           Demo.libs default_config Demo.world0 _ Scenario.hostile
           (MkUploadMeta Demo.id0 "../../etc/cron.d/face.PNG" 29
              "2026-01-05T10:31:00Z")).
  - apply uuid0_canonical.
  - vm_compute. reflexivity.
Defined.
